(** * The virtual fitting room: remote image-edit client, workflow and album page

    A shallow embedding of [services/geminiService.ts] (the client of the
    remote image model), of the [App] component (the three-step workflow
    and the album), of the [WorkflowCard] component (which controls a card
    renders) and of [lib/albumUtils] (the layout of the album page),
    followed by the properties of that code.

    Conventions of the embedding.
    - A JavaScript string is a [string]: a sequence of 8-bit characters.
      Data URLs, base64 payloads and the error texts the code inspects are
      ASCII.  Of JavaScript's four line terminators the two that fit in 8
      bits (LF, CR) are modelled.
    - A value of type [string | null] (or an optional field) is an
      [option string]; [truthy] is JavaScript's truthiness on it.
    - An [async] function is a function to an [Async] result: how the
      promise settles together with the remote calls and timers it went
      through, in order.  The remote model is an argument: what its
      [attempt]-th call answers to a request.
    - The pixel arithmetic of the album page is done on binary64 floats,
      as JavaScript does it. *)

From Stdlib Require Import String Ascii List ZArith Bool Lia.
From Stdlib Require Import Floats.PrimFloat Uint63.
Import ListNotations.

Local Open Scope bool_scope.
Local Open Scope list_scope.
Local Open Scope string_scope.

(** ** JavaScript strings and truthiness *)

Module Js.

(** [s.startsWith(p)]. *)
Fixpoint startsWith (p s : string) : bool :=
  match p with
  | EmptyString => true
  | String a p' =>
      match s with
      | EmptyString => false
      | String b s' => Ascii.eqb a b && startsWith p' s'
      end
  end.

(** [s.includes(sub)]: [sub] starts at some position of [s]. *)
Fixpoint includes (s sub : string) : bool :=
  startsWith sub s ||
  match s with
  | EmptyString => false
  | String _ rest => includes rest sub
  end.

(** A string or [null] in a boolean position: [null] and the empty string
    are falsy. *)
Definition truthy (v : option string) : bool :=
  match v with
  | None => false
  | Some s => negb (s =? "")
  end.

(** [v || fallback] on an optional string. *)
Definition orElse (v : option string) (fallback : string) : string :=
  match v with
  | Some s => if s =? "" then fallback else s
  | None => fallback
  end.

(** An optional string inside a template literal: a missing value prints
    as [undefined]. *)
Definition interpolate (v : option string) : string :=
  match v with
  | Some s => s
  | None => "undefined"
  end.

(** The double-quote character, as a one-character string. *)
Definition dquote : string := String "034"%char EmptyString.

(** What the code throws and catches: an [Error] with its message, or any
    other value, carried here by its [JSON.stringify] text (a value that
    [JSON.stringify] renders as no text at all, such as [undefined], is
    outside the model). *)
Inductive Thrown : Type :=
| ErrorObj (message : string)
| NonError (json : string).

(** A computation that returns or throws. *)
Inductive Outcome (A : Type) : Type :=
| Returned (a : A)
| Threw (e : Thrown).

Arguments Returned {A} a.
Arguments Threw {A} e.

End Js.

Import Js.

(** ** services/geminiService.ts *)

Module GeminiService.

(** *** Wire types (the fields this code reads or writes) *)

Record Blob : Type := mkBlob {
  mimeType : option string;
  data : option string
}.

Module Part.
Record t : Type := mk {
  inlineData : option Blob;
  text : option string
}.
End Part.

Record Content : Type := mkContent {
  parts : option (list Part.t)
}.

Record Candidate : Type := mkCandidate {
  content : option Content
}.

(** [text] is the accessor of the client library: the text the response
    carried, if any. *)
Module Response.
Record t : Type := mk {
  candidates : option (list Candidate);
  text : option string
}.
End Response.

Record GenerateContentParameters : Type := mkRequest {
  model : string;
  contents : list Part.t
}.

Definition imageEditModel : string := "gemini-2.5-flash-image-preview".

(** *** Effects of an asynchronous call *)

(** The remote model: what [ai.models.generateContent] settles to on the
    [attempt]-th call of one wrapper invocation. *)
Definition Remote : Type :=
  Z -> GenerateContentParameters -> Outcome Response.t.

Inductive Effect : Type :=
| GenerateContent (attempt : Z) (request : GenerateContentParameters)
| SetTimeout (delay : Z).

(** How a promise settles, and the effects performed on the way. *)
Definition Async (A : Type) : Type := (Outcome A * list Effect)%type.

Definition ret {A} (a : A) : Async A := (Returned a, []).

Definition lift {A} (o : Outcome A) : Async A := (o, []).

Definition bind {A B} (c : Async A) (k : A -> Async B) : Async B :=
  match c with
  | (Returned a, done) => let '(o, more) := k a in (o, (done ++ more)%list)
  | (Threw e, done) => (Threw e, done)
  end.

Notation "x <- c ;; k" := (bind c (fun x => k))
  (at level 61, c at next level, right associativity).

(** The remote calls among the effects. *)
Definition isCall (e : Effect) : bool :=
  match e with
  | GenerateContent _ _ => true
  | SetTimeout _ => false
  end.

Definition attempts (trace : list Effect) : nat :=
  List.length (filter isCall trace).

(** *** fileToGenerativePart *)

(** [\w]: a letter, a digit or the underscore. *)
Definition isWordChar (c : ascii) : bool :=
  let n := nat_of_ascii c in
  ((48 <=? n) && (n <=? 57) || (65 <=? n) && (n <=? 90) ||
   (97 <=? n) && (n <=? 122) || (n =? 95))%nat.

(** A character [.] does not match. *)
Definition isLineTerminator (c : ascii) : bool :=
  let n := nat_of_ascii c in ((n =? 10) || (n =? 13))%nat.

Fixpoint all (p : ascii -> bool) (s : string) : bool :=
  match s with
  | EmptyString => true
  | String c rest => p c && all p rest
  end.

(** The rest of [s] after the literal [p], when [s] starts with it. *)
Fixpoint afterLiteral (p s : string) : option string :=
  match p with
  | EmptyString => Some s
  | String a p' =>
      match s with
      | EmptyString => None
      | String b s' => if Ascii.eqb a b then afterLiteral p' s' else None
      end
  end.

(** The longest run of word characters at the head of [s], and what
    follows it. *)
Fixpoint spanWord (s : string) : string * string :=
  match s with
  | EmptyString => (EmptyString, EmptyString)
  | String c rest =>
      if isWordChar c
      then let '(w, tail) := spanWord rest in (String c w, tail)
      else (EmptyString, s)
  end.

(** [imageDataUrl.match(...)] and its two groups.  The pattern is anchored
    at both ends: the literal [data:]; group 1, the literal [image/] and
    one or more word characters; the literal [;base64,]; group 2, any run
    of characters that are not line terminators, up to the end of the
    input.  The greedy run of word characters is the whole run: the next
    literal starts with [;], which is not a word character, so no shorter
    run can match. *)
Definition matchDataUrl (imageDataUrl : string) : option (string * string) :=
  match afterLiteral "data:" imageDataUrl with
  | None => None
  | Some r1 =>
      match afterLiteral "image/" r1 with
      | None => None
      | Some r2 =>
          let '(w, r3) := spanWord r2 in
          match w with
          | EmptyString => None
          | String _ _ =>
              match afterLiteral ";base64," r3 with
              | None => None
              | Some payload =>
                  if all (fun c => negb (isLineTerminator c)) payload
                  then Some ("image/" ++ w, payload)
                  else None
              end
          end
      end
  end.

Definition invalidFormat : Thrown :=
  ErrorObj "Invalid image data URL format. Expected 'data:image/...;base64,...'".

Definition fileToGenerativePart (imageDataUrl : string) : Outcome Part.t :=
  match matchDataUrl imageDataUrl with
  | None => Threw invalidFormat
  | Some (mime, payload) =>
      Returned (Part.mk (Some (mkBlob (Some mime) (Some payload))) None)
  end.

(** *** processGeminiResponse *)

(** [response.candidates?.[0]?.content?.parts || []]. *)
Definition firstCandidateParts (response : Response.t) : list Part.t :=
  match Response.candidates response with
  | Some (c :: _) =>
      match content c with
      | Some ct =>
          match parts ct with
          | Some ps => ps
          | None => []
          end
      | None => []
      end
  | _ => []
  end.

(** The [for] loop over the parts: the data URL of the first part that has
    [inlineData]. *)
Fixpoint firstInlineImage (ps : list Part.t) : option string :=
  match ps with
  | [] => None
  | part :: rest =>
      match Part.inlineData part with
      | Some blob =>
          Some ("data:" ++ interpolate (mimeType blob) ++ ";base64," ++
                interpolate (data blob))
      | None => firstInlineImage rest
      end
  end.

Definition noTextPlaceholder : string := "No text response received.".

Definition textInsteadOfImage (textResponse : option string) : string :=
  "The AI model responded with text instead of an image: " ++ dquote ++
  orElse textResponse noTextPlaceholder ++ dquote.

Definition processGeminiResponse (response : Response.t) : Outcome string :=
  match firstInlineImage (firstCandidateParts response) with
  | Some url => Returned url
  | None => Threw (ErrorObj (textInsteadOfImage (Response.text response)))
  end.

(** *** callGeminiWithRetry *)

Definition maxRetries : Z := 3.
Definition initialDelay : Z := 1000.

(** [error instanceof Error ? error.message : JSON.stringify(error)]. *)
Definition errorMessageOf (error : Thrown) : string :=
  match error with
  | ErrorObj message => message
  | NonError json => json
  end.

Definition isInternalError (errorMessage : string) : bool :=
  includes errorMessage "500" || includes errorMessage "503" ||
  includes errorMessage "INTERNAL".

Definition exhausted : Thrown :=
  ErrorObj "Gemini API call failed after all retries.".

(** The [for] loop from [attempt] on, with [remaining] iterations left
    before [attempt <= maxRetries] fails. *)
Fixpoint retryFrom (ai : Remote) (request : GenerateContentParameters)
    (remaining : nat) (attempt : Z) : Async Response.t :=
  match remaining with
  | O => (Threw exhausted, [])
  | S remaining' =>
      match ai attempt request with
      | Returned response =>
          (Returned response, [GenerateContent attempt request])
      | Threw error =>
          let errorMessage := errorMessageOf error in
          if isInternalError errorMessage && (attempt <? maxRetries)%Z then
            let delay := (initialDelay * 2 ^ (attempt - 1))%Z in
            let '(o, more) := retryFrom ai request remaining' (attempt + 1)%Z in
            (o, GenerateContent attempt request :: SetTimeout delay :: more)
          else
            (Threw error, [GenerateContent attempt request])
      end
  end.

Definition callGeminiWithRetry (ai : Remote)
    (request : GenerateContentParameters) : Async Response.t :=
  retryFrom ai request (Z.to_nat maxRetries) 1%Z.

(** *** The three operations *)

Definition textPart (prompt : string) : Part.t := Part.mk None (Some prompt).

Definition removeAccessoriesPrompt : string :=
  "You are an expert photo editor. The user has provided a photo of themselves, likely framed from the knees up. Edit this image to carefully remove any accessories like glasses, hats, or jewelry. It is extremely important that you **do not change the person's facial features, proportions, body shape, skin texture, or expression**. The output must be a photorealistic edited version of the original image, just without the specified accessories.".

Definition isolateOutfitPrompt : string :=
  "Analyze the provided image and extract only the clothing items (e.g., shirt, pants, dress, etc.). Remove the person wearing the clothes and any background elements. The output should be an image of just the outfit on a neutral, transparent, or white background, ready to be placed on another model. Do not change the style, color, or shape of the clothing itself.".

Definition dressModelPrompt : string :=
  "You are a virtual stylist. The first image is a person (the model) framed from the knees up. The second image is an isolated outfit. Your task is to realistically dress the person from the first image in the outfit from the second image. The final image should show the original person, with their face and body proportions completely unchanged, wearing the new clothes. Ensure the clothing drapes naturally on the person's body and that lighting and shadows are consistent with the original model's photo.".

Definition removeAccessories (ai : Remote) (imageDataUrl : string)
    : Async string :=
  imagePart <- lift (fileToGenerativePart imageDataUrl) ;;
  response <- callGeminiWithRetry ai
    (mkRequest imageEditModel [imagePart; textPart removeAccessoriesPrompt]) ;;
  lift (processGeminiResponse response).

Definition isolateOutfit (ai : Remote) (imageDataUrl : string)
    : Async string :=
  imagePart <- lift (fileToGenerativePart imageDataUrl) ;;
  response <- callGeminiWithRetry ai
    (mkRequest imageEditModel [imagePart; textPart isolateOutfitPrompt]) ;;
  lift (processGeminiResponse response).

Definition dressModel (ai : Remote) (modelImageUrl outfitImageUrl : string)
    : Async string :=
  modelImagePart <- lift (fileToGenerativePart modelImageUrl) ;;
  outfitImagePart <- lift (fileToGenerativePart outfitImageUrl) ;;
  response <- callGeminiWithRetry ai
    (mkRequest imageEditModel
       [modelImagePart; outfitImagePart; textPart dressModelPrompt]) ;;
  lift (processGeminiResponse response).

End GeminiService.

(** ** The App component: three steps and an album *)

Module App.

Import GeminiService.

Inductive StepStatus : Type := Idle | Uploaded | Processing | Done | Error.

Record StepState : Type := mkStepState {
  status : StepStatus;
  originalImage : option string;
  processedImage : option string;
  error : option string;
  approved : bool
}.

Definition initialStepState : StepState :=
  {| status := Idle; originalImage := None; processedImage := None;
     error := None; approved := false |}.

(** The state hooks of the component ([isDownloadingAlbum], which no
    workflow handler touches, is left out). *)
Record State : Type := mkState {
  step1 : StepState;
  step2 : StepState;
  step3 : StepState;
  album : list string
}.

Definition initialState : State :=
  {| step1 := initialStepState; step2 := initialStepState;
     step3 := initialStepState; album := [] |}.

(** The state setters, applied to an updater function; setting a value
    [v] is [set (fun _ => v)]. *)
Definition setStep1 (f : StepState -> StepState) (s : State) : State :=
  {| step1 := f (step1 s); step2 := step2 s; step3 := step3 s;
     album := album s |}.

Definition setStep2 (f : StepState -> StepState) (s : State) : State :=
  {| step1 := step1 s; step2 := f (step2 s); step3 := step3 s;
     album := album s |}.

Definition setStep3 (f : StepState -> StepState) (s : State) : State :=
  {| step1 := step1 s; step2 := step2 s; step3 := f (step3 s);
     album := album s |}.

Definition setAlbum (f : list string -> list string) (s : State) : State :=
  {| step1 := step1 s; step2 := step2 s; step3 := step3 s;
     album := f (album s) |}.

Definition value (v : StepState) : StepState -> StepState := fun _ => v.

(** [{ ...initialStepState, status: 'uploaded', originalImage }]. *)
Definition uploadedWith (image : option string) : StepState :=
  {| status := Uploaded; originalImage := image;
     processedImage := processedImage initialStepState;
     error := error initialStepState;
     approved := approved initialStepState |}.

(** The non-null assertion [v!]: the string [v] holds.  The code asserts
    it only behind a guard that found [v] truthy, so the second case is
    never reached. *)
Definition nonNull (v : option string) : string :=
  match v with
  | Some s => s
  | None => ""
  end.

(** *** handleImageUpload

    [files] are the files of the input element, each given by the data
    URL the reader produces for it. *)
Definition handleImageUpload (files : list string) (step : Z) (s : State)
    : State :=
  match files with
  | [] => s
  | imageUrl :: _ =>
      if (step =? 1)%Z then
        setStep3 (value initialStepState)
          (setStep2 (value initialStepState)
             (setStep1 (value (uploadedWith (Some imageUrl))) s))
      else if (step =? 2)%Z then
        setStep3 (value initialStepState)
          (setStep2 (value (uploadedWith (Some imageUrl))) s)
      else s
  end.

(** *** handleProcess *)

(** The value of [updater]: one of the three step setters. *)
Inductive Updater : Type := SetStep1 | SetStep2 | SetStep3.

Definition update (updater : Updater)
    : (StepState -> StepState) -> State -> State :=
  match updater with
  | SetStep1 => setStep1
  | SetStep2 => setStep2
  | SetStep3 => setStep3
  end.

(** A call in flight: the setter its continuation writes to, and how the
    awaited promise settles. *)
Record Pending : Type := mkPending {
  updater : Updater;
  apiCall : Async string
}.

(** The guards of [handleProcess]: which setter and which call, or none
    (the early [return]). *)
Definition choose (ai : Remote) (step : Z) (s : State) : option Pending :=
  if (step =? 1)%Z && truthy (originalImage (step1 s)) then
    Some (mkPending SetStep1
            (removeAccessories ai (nonNull (originalImage (step1 s)))))
  else if (step =? 2)%Z && truthy (originalImage (step2 s)) then
    Some (mkPending SetStep2
            (isolateOutfit ai (nonNull (originalImage (step2 s)))))
  else if (step =? 3)%Z && truthy (processedImage (step1 s))
          && truthy (processedImage (step2 s)) then
    Some (mkPending SetStep3
            (dressModel ai (nonNull (processedImage (step1 s)))
                           (nonNull (processedImage (step2 s)))))
  else None.

Definition markProcessing (prev : StepState) : StepState :=
  {| status := Processing; originalImage := originalImage prev;
     processedImage := processedImage prev; error := None;
     approved := approved prev |}.

Definition markDone (resultUrl : string) (prev : StepState) : StepState :=
  {| status := Done; originalImage := originalImage prev;
     processedImage := Some resultUrl; error := error prev;
     approved := approved prev |}.

Definition markError (errorMessage : string) (prev : StepState) : StepState :=
  {| status := Error; originalImage := originalImage prev;
     processedImage := processedImage prev; error := Some errorMessage;
     approved := approved prev |}.

(** [err instanceof Error ? err.message : ...]. *)
Definition surfacedMessage (err : Thrown) : string :=
  match err with
  | ErrorObj message => message
  | NonError _ => "An unknown error occurred."
  end.

(** The part of [handleProcess] before the [await]: the state it leaves
    and the call it started, if the guards let it through. *)
Definition startProcess (ai : Remote) (step : Z) (s : State)
    : State * option Pending :=
  match choose ai step s with
  | None => (s, None)
  | Some call => (update (updater call) markProcessing s, Some call)
  end.

(** The part after the [await], on the state of that moment. *)
Definition settle (call : Pending) (s : State) : State :=
  match fst (apiCall call) with
  | Returned resultUrl => update (updater call) (markDone resultUrl) s
  | Threw err => update (updater call) (markError (surfacedMessage err)) s
  end.

(** A handler run until its promise has settled, nothing else happening
    in between: the final state and the effects of the call. *)
Definition complete (started : State * option Pending)
    : State * list Effect :=
  match started with
  | (s, None) => (s, [])
  | (s, Some call) => (settle call s, snd (apiCall call))
  end.

Definition handleProcess (ai : Remote) (step : Z) (s : State)
    : State * list Effect :=
  complete (startProcess ai step s).

(** *** handleRetry *)

Definition startRetry (ai : Remote) (step : Z) (s : State)
    : State * option Pending :=
  if (step =? 1)%Z then
    (setStep3 (value initialStepState)
       (setStep2 (value initialStepState)
          (setStep1 (value (uploadedWith (originalImage (step1 s)))) s)),
     None)
  else if (step =? 2)%Z then
    (setStep3 (value initialStepState)
       (setStep2 (fun prev => uploadedWith (originalImage prev)) s),
     None)
  else if (step =? 3)%Z then startProcess ai 3 s
  else (s, None).

Definition handleRetry (ai : Remote) (step : Z) (s : State)
    : State * list Effect :=
  complete (startRetry ai step s).

(** *** handleApprove *)

Definition markApproved (prev : StepState) : StepState :=
  {| status := status prev; originalImage := originalImage prev;
     processedImage := processedImage prev; error := error prev;
     approved := true |}.

Definition handleApprove (step : Z) (s : State) : State :=
  let s' := if (step =? 1)%Z then setStep1 markApproved s else s in
  if (step =? 2)%Z then setStep2 markApproved s' else s'.

(** *** handleSaveToAlbum *)

Definition handleSaveToAlbum (s : State) : State :=
  if negb (truthy (processedImage (step3 s))) then s
  else
    setStep3 (value initialStepState)
      (setStep2 (value initialStepState)
         (setAlbum
            (fun prev => (prev ++ [nonNull (processedImage (step3 s))])%list)
            s)).

End App.

(** ** The WorkflowCard component: the controls a card renders *)

Module WorkflowCard.

Import App.

Inductive Control : Type :=
| UploadInput
| ProcessButton
| RetryButton
| DownloadButton
| ApproveButton.

Definition statusIs (a b : StepStatus) : bool :=
  match a, b with
  | Idle, Idle | Uploaded, Uploaded | Processing, Processing
  | Done, Done | Error, Error => true
  | _, _ => false
  end.

Definition showPlaceholder (state : StepState) : bool :=
  negb (truthy (originalImage state)) && negb (truthy (processedImage state)).

(** Whether the card of a step in [state] renders [control];
    [onImageUpload] tells whether the card was given an upload handler.
    The retry button appears twice: among the buttons of a finished step
    and inside the error display. *)
Definition renders (onImageUpload : bool) (state : StepState)
    (control : Control) : bool :=
  match control with
  | UploadInput => showPlaceholder state && onImageUpload
  | ProcessButton =>
      statusIs (status state) Idle && negb onImageUpload
      || statusIs (status state) Uploaded
  | RetryButton =>
      statusIs (status state) Done
      || statusIs (status state) Error && truthy (error state)
  | DownloadButton => statusIs (status state) Done
  | ApproveButton => statusIs (status state) Done && negb (approved state)
  end.

End WorkflowCard.

(** ** The page at work: user events and calls in flight *)

Module Session.

Import GeminiService App WorkflowCard.

Inductive Card : Type := Card1 | Card2 | Card3.

Definition stepNumber (card : Card) : Z :=
  match card with
  | Card1 => 1
  | Card2 => 2
  | Card3 => 3
  end%Z.

(** The props [App] passes to each card. *)
Definition cardState (card : Card) (s : State) : StepState :=
  match card with
  | Card1 => step1 s
  | Card2 => step2 s
  | Card3 => step3 s
  end.

Definition hasImageUpload (card : Card) : bool :=
  match card with
  | Card1 | Card2 => true
  | Card3 => false
  end.

Definition isStepActive (card : Card) (s : State) : bool :=
  match card with
  | Card1 => true
  | Card2 => approved (step1 s)
  | Card3 => approved (step1 s) && approved (step2 s)
  end.

Definition onApprove (card : Card) : State -> State :=
  match card with
  | Card1 => handleApprove 1
  | Card2 => handleApprove 2
  | Card3 => handleSaveToAlbum
  end.

(** What is on screen and the calls that have not settled yet. *)
Record Page : Type := mkPage {
  view : State;
  inflight : list Pending
}.

Definition initialPage : Page := {| view := initialState; inflight := [] |}.

(** What can happen to the page: the user works a control of a card (with
    the files chosen, or the remote model the call will meet), or a call
    in flight settles.  Each event meets the page as the previous one left
    it: the handlers read the state of the latest render. *)
Inductive Event : Type :=
| ChooseFiles (card : Card) (files : list string)
| ClickProcess (card : Card) (ai : Remote)
| ClickRetry (card : Card) (ai : Remote)
| ClickApprove (card : Card)
| ClickDownload (card : Card)
| Settles (n : nat).

Definition controlOf (e : Event) : option (Card * Control) :=
  match e with
  | ChooseFiles card _ => Some (card, UploadInput)
  | ClickProcess card _ => Some (card, ProcessButton)
  | ClickRetry card _ => Some (card, RetryButton)
  | ClickApprove card => Some (card, ApproveButton)
  | ClickDownload card => Some (card, DownloadButton)
  | Settles _ => None
  end.

(** A control can be worked when its card renders it.  An inactive card is
    only dimmed and closed to the pointer; its controls stay in the
    document, so [isStepActive] is not asked for here. *)
Definition offered (e : Event) (s : State) : bool :=
  match controlOf e with
  | Some (card, control) =>
      renders (hasImageUpload card) (cardState card s) control
  | None => true
  end.

Definition launch (p : Page) (started : State * option Pending) : Page :=
  match started with
  | (s, None) => {| view := s; inflight := inflight p |}
  | (s, Some call) => {| view := s; inflight := (inflight p ++ [call])%list |}
  end.

Fixpoint dropNth {A} (n : nat) (l : list A) : list A :=
  match n, l with
  | _, [] => []
  | O, _ :: rest => rest
  | S n', a :: rest => a :: dropNth n' rest
  end.

(** The handler [App] wired to the control. *)
Definition handle (e : Event) (p : Page) : Page :=
  match e with
  | ChooseFiles card files =>
      {| view := handleImageUpload files (stepNumber card) (view p);
         inflight := inflight p |}
  | ClickProcess card ai =>
      launch p (startProcess ai (stepNumber card) (view p))
  | ClickRetry card ai =>
      launch p (startRetry ai (stepNumber card) (view p))
  | ClickApprove card =>
      {| view := onApprove card (view p); inflight := inflight p |}
  | ClickDownload _ => p
  | Settles n =>
      match nth_error (inflight p) n with
      | Some call =>
          {| view := settle call (view p); inflight := dropNth n (inflight p) |}
      | None => p
      end
  end.

Definition react (e : Event) (p : Page) : Page :=
  if offered e (view p) then handle e p else p.

(** The pages a sequence of events goes through, the first one included. *)
Fixpoint pages (p : Page) (events : list Event) : list Page :=
  p :: match events with
       | [] => []
       | e :: rest => pages (react e p) rest
       end.

End Session.

(** ** lib/albumUtils: the layout of the album page *)

Module AlbumUtils.

Local Open Scope float_scope.

(** A number that is a count or an index, as a float. *)
Definition num (n : nat) : float := of_uint63 (Uint63.of_Z (Z.of_nat n)).

Record HTMLImageElement : Type := mkImage {
  naturalWidth : float;
  naturalHeight : float
}.

Definition canvasWidth : float := 2480.
Definition canvasHeight : float := 3508.

Module grid.
Definition cols : nat := 2.
Definition padding : float := 80.
End grid.

Definition contentTopMargin : float := 350.

Definition contentWidth : float := canvasWidth - grid.padding * 2.

Definition cellWidth : float :=
  (contentWidth - grid.padding * num (grid.cols - 1)) / num grid.cols.

(** [Math.ceil(n / d)] on counts. *)
Definition ceilDiv (n d : nat) : nat :=
  (n / d + if (n mod d =? 0) then 0 else 1)%nat.

Definition rows (loadedImages : list HTMLImageElement) : nat :=
  ceilDiv (List.length loadedImages) grid.cols.

(** The rectangle an image is drawn into (and stroked around). *)
Record Rect : Type := mkRect {
  x : float;
  y : float;
  drawWidth : float;
  drawHeight : float
}.

Definition aspectRatio (img : HTMLImageElement) : float :=
  naturalWidth img / naturalHeight img.

(** The inner [for] loop, [rowsLeft] iterations from [i] on: each row
    above adds the height of its first image and one padding. *)
Fixpoint addRowsAbove (loadedImages : list HTMLImageElement)
    (rowsLeft i : nat) (yOffset : float) : option float :=
  match rowsLeft with
  | O => Some yOffset
  | S rowsLeft' =>
      let imageInPrevRowIndex := (i * grid.cols)%nat in
      match nth_error loadedImages imageInPrevRowIndex with
      | None => None
      | Some prevImg =>
          addRowsAbove loadedImages rowsLeft' (S i)
            (yOffset + (cellWidth / (naturalWidth prevImg / naturalHeight prevImg)
                        + grid.padding))
      end
  end.

(** The body of the [forEach] callback up to the drawing calls; [None]
    where reading [loadedImages[...]] would find nothing. *)
Definition place (loadedImages : list HTMLImageElement)
    (img : HTMLImageElement) (index : nat) : option Rect :=
  let row := (index / grid.cols)%nat in
  let col := (index mod grid.cols)%nat in
  let drawWidth := cellWidth in
  let drawHeight := drawWidth / aspectRatio img in
  match addRowsAbove loadedImages row 0 (contentTopMargin + grid.padding) with
  | None => None
  | Some yOffset =>
      let x := grid.padding + num col * (cellWidth + grid.padding) in
      let y := yOffset in
      Some (mkRect x y drawWidth drawHeight)
  end.

(** The rectangle of the image at [index]. *)
Definition placeAt (loadedImages : list HTMLImageElement) (index : nat)
    : option Rect :=
  match nth_error loadedImages index with
  | Some img => place loadedImages img index
  | None => None
  end.

End AlbumUtils.

(** ** Notions the properties are stated with *)

Module Notions.

Import GeminiService.

(** The shape [data:<mime>;base64,<payload>] of an image reference. *)
Definition dataUrlShape (s : string) : Prop :=
  exists mime payload, s = "data:" ++ mime ++ ";base64," ++ payload.

(** A string without line terminators. *)
Definition singleLine (s : string) : bool :=
  all (fun c => negb (isLineTerminator c)) s.

(** The part for an image of the given mime type and payload. *)
Definition imagePart (mime payload : string) : Part.t :=
  Part.mk (Some (mkBlob (Some mime) (Some payload))) None.

(** An image reference that is there and not the empty string. *)
Definition nonEmpty (v : option string) : Prop :=
  exists image, v = Some image /\ image <> "".

(** A failure the retry wrapper takes for a transient one. *)
Definition transient (e : Thrown) : bool :=
  isInternalError (errorMessageOf e).

(** Attempts [1 .. n] of [ai] on [request] all fail, transiently. *)
Definition failsTransiently (ai : Remote)
    (request : GenerateContentParameters) (n : Z) : Prop :=
  forall i, (1 <= i <= n)%Z ->
    exists e, ai i request = Threw e /\ transient e = true.

(** The effects of [count] failed attempts from [attempt] on, each
    followed by its wait of [1000 * 2 ^ (attempt - 1)] milliseconds. *)
Fixpoint backoffFrom (request : GenerateContentParameters) (count : nat)
    (attempt : Z) : list Effect :=
  match count with
  | O => []
  | S count' =>
      GenerateContent attempt request
        :: SetTimeout (1000 * 2 ^ (attempt - 1))%Z
        :: backoffFrom request count' (attempt + 1)%Z
  end.

Definition backoff (request : GenerateContentParameters) (failed : Z)
    : list Effect :=
  backoffFrom request (Z.to_nat failed) 1%Z.

End Notions.

(** ** The WorkflowCard component: what a card shows *)

Module CardView.

Import App WorkflowCard.

Definition showOriginal (state : StepState) : bool :=
  statusIs (status state) Uploaded && truthy (originalImage state).

Definition showProcessed (state : StepState) : bool :=
  (statusIs (status state) Done || statusIs (status state) Error
   || approved state)
  && truthy (processedImage state).

(** The spinner and the error display, laid over the image area. *)
Definition showSpinner (state : StepState) : bool :=
  statusIs (status state) Processing.

Definition showError (state : StepState) : bool :=
  statusIs (status state) Error && truthy (error state).

End CardView.

(** ** The App component: downloads *)

Module Downloads.

Import App.

(** The link [handleDownload] builds. *)
Record Link : Type := mkLink {
  href : string;
  download : string
}.

(** What [handleDownload] does to the document. *)
Inductive DomEffect : Type :=
| AppendChild (link : Link)
| Click (link : Link)
| RemoveChild (link : Link).

Definition handleDownload (imageUrl : option string) (fileName : string)
    : list DomEffect :=
  if negb (truthy imageUrl) then []
  else
    let link := {| href := nonNull imageUrl; download := fileName |} in
    [AppendChild link; Click link; RemoveChild link].


End Downloads.

(** ** lib/albumUtils: loading, drawing and encoding the page *)

Module AlbumCanvas.

Import AlbumUtils.

Local Open Scope float_scope.

(** The drawing state of a 2D context: the attributes this code sets. *)
Record DrawingState : Type := mkDrawingState {
  fillStyle : string;
  textAlign : string;
  font : string;
  shadowColor : string;
  shadowBlur : float;
  shadowOffsetX : float;
  shadowOffsetY : float;
  strokeStyle : string;
  lineWidth : float
}.

(** What has been painted, each with the drawing state it was painted
    under. *)
Inductive Paint : Type :=
| FillRect (px py pw ph : float) (under : DrawingState)
| FillText (text : string) (px py : float) (under : DrawingState)
| DrawImage (img : HTMLImageElement) (px py pw ph : float)
    (under : DrawingState)
| StrokeRect (px py pw ph : float) (under : DrawingState).

(** A 2D context: the current drawing state, the stack of saved ones and
    the paints so far, the oldest first. *)
Record Context : Type := mkContext {
  current : DrawingState;
  saved : list DrawingState;
  painted : list Paint
}.

Definition save (ctx : Context) : Context :=
  {| current := current ctx; saved := current ctx :: saved ctx;
     painted := painted ctx |}.

(** [restore] pops the stack; on an empty stack it does nothing. *)
Definition restore (ctx : Context) : Context :=
  match saved ctx with
  | [] => ctx
  | top :: below =>
      {| current := top; saved := below; painted := painted ctx |}
  end.

Definition setState (f : DrawingState -> DrawingState) (ctx : Context)
    : Context :=
  {| current := f (current ctx); saved := saved ctx;
     painted := painted ctx |}.

Definition paint (p : DrawingState -> Paint) (ctx : Context) : Context :=
  {| current := current ctx; saved := saved ctx;
     painted := (painted ctx ++ [p (current ctx)])%list |}.

Definition setFillStyle (v : string) (d : DrawingState) : DrawingState :=
  mkDrawingState v (textAlign d) (font d) (shadowColor d) (shadowBlur d)
    (shadowOffsetX d) (shadowOffsetY d) (strokeStyle d) (lineWidth d).

Definition setTextAlign (v : string) (d : DrawingState) : DrawingState :=
  mkDrawingState (fillStyle d) v (font d) (shadowColor d) (shadowBlur d)
    (shadowOffsetX d) (shadowOffsetY d) (strokeStyle d) (lineWidth d).

Definition setFont (v : string) (d : DrawingState) : DrawingState :=
  mkDrawingState (fillStyle d) (textAlign d) v (shadowColor d) (shadowBlur d)
    (shadowOffsetX d) (shadowOffsetY d) (strokeStyle d) (lineWidth d).

Definition setShadowColor (v : string) (d : DrawingState) : DrawingState :=
  mkDrawingState (fillStyle d) (textAlign d) (font d) v (shadowBlur d)
    (shadowOffsetX d) (shadowOffsetY d) (strokeStyle d) (lineWidth d).

Definition setShadowBlur (v : float) (d : DrawingState) : DrawingState :=
  mkDrawingState (fillStyle d) (textAlign d) (font d) (shadowColor d) v
    (shadowOffsetX d) (shadowOffsetY d) (strokeStyle d) (lineWidth d).

Definition setShadowOffsetX (v : float) (d : DrawingState) : DrawingState :=
  mkDrawingState (fillStyle d) (textAlign d) (font d) (shadowColor d)
    (shadowBlur d) v (shadowOffsetY d) (strokeStyle d) (lineWidth d).

Definition setShadowOffsetY (v : float) (d : DrawingState) : DrawingState :=
  mkDrawingState (fillStyle d) (textAlign d) (font d) (shadowColor d)
    (shadowBlur d) (shadowOffsetX d) v (strokeStyle d) (lineWidth d).

Definition setStrokeStyle (v : string) (d : DrawingState) : DrawingState :=
  mkDrawingState (fillStyle d) (textAlign d) (font d) (shadowColor d)
    (shadowBlur d) (shadowOffsetX d) (shadowOffsetY d) v (lineWidth d).

Definition setLineWidth (v : float) (d : DrawingState) : DrawingState :=
  mkDrawingState (fillStyle d) (textAlign d) (font d) (shadowColor d)
    (shadowBlur d) (shadowOffsetX d) (shadowOffsetY d) (strokeStyle d) v.

(** The browser as [createAlbumPage] meets it: the drawing state of a
    fresh 2D context ([None] when the canvas gives no context), the image
    a source decodes to ([None] when loading it fails), which of the loads
    is the first to settle as a failure, and the data URL the canvas
    encodes to. *)
Record Browser : Type := mkBrowser {
  freshContext : option DrawingState;
  imageOf : string -> option HTMLImageElement;
  earliestFailure : nat;
  toDataURL : list Paint -> string -> float -> string
}.

Definition loadError (src : string) : Thrown :=
  ErrorObj ("Failed to load image: " ++ substring 0 60 src ++ "...").

(** [loadImage]: the promise settles with the image or with the error. *)
Definition loadImage (b : Browser) (src : string)
    : Outcome HTMLImageElement :=
  match imageOf b src with
  | Some img => Returned img
  | None => Threw (loadError src)
  end.

(** The results of promises that all fulfil, or the first failure in the
    order of the list. *)
Fixpoint collect {A} (settled : list (Outcome A)) : Outcome (list A) :=
  match settled with
  | [] => Returned []
  | Returned a :: rest =>
      match collect rest with
      | Returned others => Returned (a :: others)
      | Threw e => Threw e
      end
  | Threw e :: _ => Threw e
  end.

(** [Promise.all]: all the results, in order, or the failure that came
    first in time, the one at [earliest] when that promise did fail. *)
Definition promiseAll {A} (earliest : nat) (settled : list (Outcome A))
    : Outcome (list A) :=
  match collect settled with
  | Returned results => Returned results
  | Threw firstInOrder =>
      match nth_error settled earliest with
      | Some (Threw e) => Threw e
      | _ => Threw firstInOrder
      end
  end.

(** The title text; its second word starts with a capital A with an
    acute accent. *)
Definition titleText : string := "Mi " ++ String "193" "lbum Virtual".

(** Steps 1 and 2 of [createAlbumPage]: the background and the two
    lines of the header. *)
Definition drawHeader (ctx : Context) : Context :=
  let ctx := setState (setFillStyle "#1a1a1a") ctx in
  let ctx := paint (FillRect 0 0 canvasWidth canvasHeight) ctx in
  let ctx := setState (setFillStyle "#e5e5e5") ctx in
  let ctx := setState (setTextAlign "center") ctx in
  let ctx := setState (setFont "bold 120px 'Caveat', cursive") ctx in
  let ctx := paint (FillText titleText (canvasWidth / 2) 180) ctx in
  let ctx := setState (setFont "50px 'Roboto', sans-serif") ctx in
  let ctx := setState (setFillStyle "#a3a3a3") ctx in
  paint (FillText "Creado con el Probador Virtual de IA" (canvasWidth / 2) 260)
    ctx.

(** The drawing calls of the [forEach] callback, for the rectangle the
    layout gave the image. *)
Definition drawInto (img : HTMLImageElement) (r : Rect) (ctx : Context)
    : Context :=
  let ctx := save ctx in
  let ctx := setState (setShadowColor "rgba(0, 0, 0, 0.5)") ctx in
  let ctx := setState (setShadowBlur 40) ctx in
  let ctx := setState (setShadowOffsetX 10) ctx in
  let ctx := setState (setShadowOffsetY 10) ctx in
  let ctx :=
    paint (DrawImage img (x r) (y r) (drawWidth r) (drawHeight r)) ctx in
  let ctx := setState (setShadowColor "transparent") ctx in
  let ctx := setState (setStrokeStyle "rgba(255, 255, 255, 0.1)") ctx in
  let ctx := setState (setLineWidth 5) ctx in
  let ctx := paint (StrokeRect (x r) (y r) (drawWidth r) (drawHeight r)) ctx in
  restore ctx.

(** [loadedImages.forEach], from [index] on; [None] where the callback
    would read an image that is not there. *)
Fixpoint drawFrom (loadedImages rest : list HTMLImageElement) (index : nat)
    (ctx : Context) : option Context :=
  match rest with
  | [] => Some ctx
  | img :: rest' =>
      match place loadedImages img index with
      | None => None
      | Some r => drawFrom loadedImages rest' (S index) (drawInto img r ctx)
      end
  end.

Definition noContext : Thrown := ErrorObj "Could not get 2D canvas context".

(** The quality [0.92], as the binary64 number nearest to it. *)
Definition jpegQuality : float := 0x1.d70a3d70a3d71p-1.

(** Reading a property of [undefined]. *)
Definition typeError : Thrown := ErrorObj "TypeError".

Definition createAlbumPage (b : Browser) (images : list string)
    : Outcome string :=
  match freshContext b with
  | None => Threw noContext
  | Some fresh =>
      let ctx := drawHeader (mkContext fresh [] []) in
      match promiseAll (earliestFailure b) (map (loadImage b) images) with
      | Threw e => Threw e
      | Returned loadedImages =>
          match drawFrom loadedImages loadedImages 0 ctx with
          | None => Threw typeError
          | Some ctx => Returned (toDataURL b (painted ctx) "image/jpeg" jpegQuality)
          end
      end
  end.

End AlbumCanvas.

(** ** The App component: the album download *)

Module AlbumDownload.

Import App Downloads AlbumCanvas.

(** The workflow state together with the flag of the album button. *)
Record Shell : Type := mkShell {
  workflow : State;
  isDownloadingAlbum : bool
}.

Definition setIsDownloadingAlbum (v : bool) (sh : Shell) : Shell :=
  {| workflow := workflow sh; isDownloadingAlbum := v |}.

(** The album section is rendered for a non-empty album, and its button
    is disabled while a page is being made. *)
Definition albumButtonEnabled (sh : Shell) : bool :=
  (0 <? List.length (album (workflow sh)))%nat
  && negb (isDownloadingAlbum sh).

(** [handleDownloadAlbum], run until its promise has settled: the state
    while the page is being made, the state at the end, and what was done
    to the document. *)
Definition handleDownloadAlbum (b : Browser) (sh : Shell)
    : Shell * Shell * list DomEffect :=
  if (List.length (album (workflow sh)) =? 0)%nat then (sh, sh, [])
  else
    let during := setIsDownloadingAlbum true sh in
    let effects :=
      match createAlbumPage b (album (workflow sh)) with
      | Returned albumImageUrl =>
          handleDownload (Some albumImageUrl) "mi_album_virtual.jpeg"
      | Threw _ => []
      end in
    (during, setIsDownloadingAlbum false during, effects).

End AlbumDownload.

(** ** More notions the properties are stated with *)

Module Measures.

Import GeminiService.

(** The time spent waiting among the effects, in milliseconds. *)
Fixpoint totalDelay (trace : list Effect) : Z :=
  match trace with
  | [] => 0
  | SetTimeout delay :: rest => delay + totalDelay rest
  | GenerateContent _ _ :: rest => totalDelay rest
  end%Z.

(** The requests sent, in order. *)
Fixpoint requestsSent (trace : list Effect) : list GenerateContentParameters :=
  match trace with
  | [] => []
  | GenerateContent _ request :: rest => request :: requestsSent rest
  | SetTimeout _ :: rest => requestsSent rest
  end.

(** The request each operation builds from the decomposed image
    references. *)
Definition accessoriesRequest (mime payload : string)
    : GenerateContentParameters :=
  mkRequest imageEditModel
    [Notions.imagePart mime payload; textPart removeAccessoriesPrompt].

Definition outfitRequest (mime payload : string)
    : GenerateContentParameters :=
  mkRequest imageEditModel
    [Notions.imagePart mime payload; textPart isolateOutfitPrompt].

Definition fusionRequest (modelMime modelPayload outfitMime outfitPayload : string)
    : GenerateContentParameters :=
  mkRequest imageEditModel
    [Notions.imagePart modelMime modelPayload;
     Notions.imagePart outfitMime outfitPayload;
     textPart dressModelPrompt].

(** What an operation amounts to once its request is built: the call
    with retries, then the decoding of the response it returned. *)
Definition callAndDecode (ai : Remote) (request : GenerateContentParameters)
    : Async string :=
  (match fst (callGeminiWithRetry ai request) with
   | Returned response => processGeminiResponse response
   | Threw e => Threw e
   end,
   snd (callGeminiWithRetry ai request)).

(** A response none of whose scanned parts has inline data. *)
Definition withoutImage (response : Response.t) : Prop :=
  forall p, In p (firstCandidateParts response) -> Part.inlineData p = None.

End Measures.

(** ** What holds of the steps on every page *)

Module Invariants.

Import GeminiService App Session Notions.

(** What the status of a step tells about its other fields. *)
Definition coherent (state : StepState) : Prop :=
  match status state with
  | Idle => state = initialStepState
  | Uploaded =>
      processedImage state = None /\ error state = None /\
      approved state = false
  | Processing => error state = None
  | Done => nonEmpty (processedImage state)
  | Error => exists message, error state = Some message
  end.

(** A call in flight that can only bring back a non-empty image
    reference. *)
Definition bringsImage (call : Pending) : Prop :=
  forall resultUrl, fst (apiCall call) = Returned resultUrl -> resultUrl <> "".

Definition sound (p : Page) : Prop :=
  (forall card, coherent (cardState card (view p))) /\
  (forall call, In call (inflight p) -> bringsImage call).

(** The page [events] lead to from [p]. *)
Definition after (events : list Event) (p : Page) : Page :=
  fold_left (fun q e => react e q) events p.

End Invariants.

(** ** The paints of an album page, image by image *)

Module PagePaints.

Import AlbumUtils AlbumCanvas.

(** The drawing state the header leaves behind. *)
Definition headerState (fresh : DrawingState) : DrawingState :=
  current (drawHeader (mkContext fresh [] [])).

Definition headerPaints (fresh : DrawingState) : list Paint :=
  painted (drawHeader (mkContext fresh [] [])).

(** A drawing state with the drop shadow of the images on. *)
Definition shadowed (d : DrawingState) : DrawingState :=
  setShadowOffsetY 10
    (setShadowOffsetX 10
       (setShadowBlur 40 (setShadowColor "rgba(0, 0, 0, 0.5)" d))).

(** The same with the shadow off and the border stroke set. *)
Definition bordered (d : DrawingState) : DrawingState :=
  setLineWidth 5
    (setStrokeStyle "rgba(255, 255, 255, 0.1)"
       (setShadowColor "transparent" (shadowed d))).

(** An image drawn into a rectangle under the shadow, then outlined on
    the same rectangle. *)
Definition framed (d : DrawingState) (img : HTMLImageElement) (r : Rect)
    : list Paint :=
  [DrawImage img (x r) (y r) (drawWidth r) (drawHeight r) (shadowed d);
   StrokeRect (x r) (y r) (drawWidth r) (drawHeight r) (bordered d)].

(** The frames of the images from [index] on, each in the rectangle the
    layout gives it. *)
Fixpoint framesFrom (d : DrawingState)
    (loadedImages rest : list HTMLImageElement) (index : nat) : list Paint :=
  match rest with
  | [] => []
  | img :: rest' =>
      match placeAt loadedImages index with
      | Some r => framed d img r
      | None => []
      end ++ framesFrom d loadedImages rest' (S index)
  end%list.

End PagePaints.

(** * Properties *)

Import GeminiService App WorkflowCard Session Notions.
Import CardView Downloads AlbumDownload Measures Invariants.
Import AlbumCanvas PagePaints.

(** ** Strings *)

Section Strings.

Lemma append_assoc (a b c : string) : (a ++ b) ++ c = a ++ (b ++ c).
Proof. induction a as [|x a IH]; simpl; [reflexivity | now rewrite IH]. Qed.

Lemma startsWith_append (p s : string) :
  startsWith p s = true <-> exists rest, s = p ++ rest.
Proof.
  revert s; induction p as [|a p IH]; intros s; simpl.
  - split; [intros _; exists s; reflexivity | reflexivity].
  - destruct s as [|b s].
    + split; [discriminate | intros [rest H]; discriminate].
    + destruct (Ascii.eqb_spec a b) as [->|Hab]; simpl.
      * rewrite IH. split; intros [rest H]; exists rest.
        -- now rewrite H.
        -- now injection H.
      * split; [discriminate | intros [rest H]; simpl in H; congruence].
Qed.

Lemma includes_occurs (s sub : string) :
  includes s sub = true <-> exists before after, s = before ++ sub ++ after.
Proof.
  induction s as [|c s IH]; simpl.
  - rewrite orb_false_r, startsWith_append. split.
    + intros [rest H]. exists "", rest. exact H.
    + intros [[|b before] [after H]]; [exists after; exact H | discriminate].
  - rewrite orb_true_iff, startsWith_append, IH. split.
    + intros [[rest H] | [before [after H]]].
      * exists "", rest. exact H.
      * exists (String c before), after. simpl. now rewrite H.
    + intros [[|b before] [after H]].
      * left. exists after. exact H.
      * right. injection H as _ H. exists before, after. exact H.
Qed.

Lemma afterLiteral_append (p s rest : string) :
  afterLiteral p s = Some rest <-> s = p ++ rest.
Proof.
  revert s; induction p as [|a p IH]; intros s; simpl.
  - split; [intros [= ->]; reflexivity | intros ->; reflexivity].
  - destruct s as [|b s]; [split; discriminate|].
    destruct (Ascii.eqb_spec a b) as [->|Hab].
    + rewrite IH. split; [intros ->; reflexivity | intros [= ->]; reflexivity].
    + split; [discriminate | simpl; congruence].
Qed.

Lemma all_append (q : ascii -> bool) (a b : string) :
  all q (a ++ b) = all q a && all q b.
Proof.
  induction a as [|c a IH]; simpl; [reflexivity|].
  now rewrite IH, andb_assoc.
Qed.

(** [spanWord] splits its input, the first half being word characters. *)
Lemma spanWord_split (s w tail : string) :
  spanWord s = (w, tail) -> s = w ++ tail /\ all isWordChar w = true.
Proof.
  revert w tail; induction s as [|c s IH]; intros w tail; simpl.
  - intros [= <- <-]. split; reflexivity.
  - destruct (isWordChar c) eqn:Hc.
    + destruct (spanWord s) as [w' tail'] eqn:Hs. intros [= <- <-].
      destruct (IH _ _ eq_refl) as [-> Hw]. simpl. rewrite Hc, Hw. split; reflexivity.
    + intros [= <- <-]. split; reflexivity.
Qed.

(** A run of word characters followed by a character that is not one is
    what [spanWord] takes. *)
Lemma spanWord_run (w : string) (c : ascii) (tail : string) :
  all isWordChar w = true -> isWordChar c = false ->
  spanWord (w ++ String c tail) = (w, String c tail).
Proof.
  intros Hw Hc. induction w as [|a w IH]; simpl in *.
  - now rewrite Hc.
  - apply andb_true_iff in Hw as [Ha Hw]. now rewrite Ha, (IH Hw).
Qed.

End Strings.

(** ** The encoder: fileToGenerativePart *)

Section Encoder.

(** What the pattern of [fileToGenerativePart] accepts: [data:image/],
    a non-empty run [w] of word characters, [;base64,] and a payload
    without line terminators. *)
Lemma matchDataUrl_accepts (s mime payload : string) :
  matchDataUrl s = Some (mime, payload) <->
  exists w, w <> "" /\ all isWordChar w = true /\
            all (fun c => negb (isLineTerminator c)) payload = true /\
            mime = "image/" ++ w /\
            s = "data:" ++ "image/" ++ w ++ ";base64," ++ payload.
Proof.
  unfold matchDataUrl. split.
  - destruct (afterLiteral "data:" s) as [r1|] eqn:H1; [|discriminate].
    destruct (afterLiteral "image/" r1) as [r2|] eqn:H2; [|discriminate].
    destruct (spanWord r2) as [w r3] eqn:H3.
    destruct w as [|a w]; [discriminate|].
    destruct (afterLiteral ";base64," r3) as [d|] eqn:H4; [|discriminate].
    destruct (all _ d) eqn:H5; [|discriminate].
    intros [= <- <-]. exists (String a w).
    apply afterLiteral_append in H1, H2, H4.
    apply spanWord_split in H3 as [H3 Hw].
    repeat split; try assumption; try discriminate.
    now rewrite H1, H2, H3, H4.
  - intros (w & Hne & Hw & Hd & -> & ->).
    replace (afterLiteral "data:" _) with (Some ("image/" ++ w ++ ";base64," ++ payload))
      by (symmetry; now apply afterLiteral_append).
    replace (afterLiteral "image/" _) with (Some (w ++ ";base64," ++ payload))
      by (symmetry; now apply afterLiteral_append).
    change (";base64," ++ payload) with (String ";" ("base64," ++ payload)).
    rewrite spanWord_run by (assumption || reflexivity).
    destruct w as [|a w]; [contradiction|].
    change (String ";" ("base64," ++ payload)) with (";base64," ++ payload).
    replace (afterLiteral ";base64," _) with (Some payload)
      by (symmetry; now apply afterLiteral_append).
    now rewrite Hd.
Qed.

End Encoder.

Section EncoderClaims.

Lemma shape_of_match (s mime payload : string) :
  matchDataUrl s = Some (mime, payload) -> dataUrlShape s.
Proof.
  intros H. apply matchDataUrl_accepts in H as (w & _ & _ & _ & -> & ->).
  exists ("image/" ++ w), payload. reflexivity.
Qed.

Lemma malformed_rejected (s : string) :
  ~ dataUrlShape s -> fileToGenerativePart s = Threw invalidFormat.
Proof.
  intros Hs. unfold fileToGenerativePart.
  destruct (matchDataUrl s) as [[mime payload]|] eqn:Hm; [|reflexivity].
  exfalso. apply Hs. eapply shape_of_match; eassumption.
Qed.

Lemma encoder_throws_format_error_only (s : string) (e : Thrown) :
  fileToGenerativePart s = Threw e -> e = invalidFormat.
Proof.
  unfold fileToGenerativePart.
  destruct (matchDataUrl s) as [[mime payload]|]; congruence.
Qed.

Lemma png_accepted (X : string) :
  singleLine X = true ->
  fileToGenerativePart ("data:image/png;base64," ++ X)
  = Returned (imagePart "image/png" X).
Proof.
  intros HX. unfold fileToGenerativePart.
  assert (H : matchDataUrl ("data:image/png;base64," ++ X) = Some ("image/png", X)).
  { apply matchDataUrl_accepts. exists "png". repeat split; try reflexivity.
    - discriminate.
    - exact HX. }
  now rewrite H.
Qed.

(** C8, the claim as it stands fails: a payload that holds a line feed is
    not decomposed; the encoder throws the format error. *)
Lemma encoder_rejects_payload_with_line_feed :
  fileToGenerativePart
    ("data:image/png;base64," ++ String "a" (String "010" (String "b" "")))
  = Threw invalidFormat.
Proof. reflexivity. Qed.

(** C8, amended: for every payload [X] without a line terminator,
    [data:image/png;base64,X] decomposes into the mime type [image/png]
    and the payload [X] itself; and every input that does not have the
    shape [data:<mime>;base64,<payload>] makes the encoder throw the format
    error, each of the three operations failing with it before any remote
    call or wait (no effect at all), whichever of its image arguments is
    the malformed one. *)
Theorem encoder_roundtrip_and_format_error :
  (forall X, singleLine X = true ->
     fileToGenerativePart ("data:image/png;base64," ++ X)
     = Returned (imagePart "image/png" X)) /\
  (forall s, ~ dataUrlShape s ->
     fileToGenerativePart s = Threw invalidFormat /\
     forall ai other,
       removeAccessories ai s = (Threw invalidFormat, []) /\
       isolateOutfit ai s = (Threw invalidFormat, []) /\
       dressModel ai s other = (Threw invalidFormat, []) /\
       dressModel ai other s = (Threw invalidFormat, [])).
Proof.
  split; [exact png_accepted|].
  intros s Hs. pose proof (malformed_rejected s Hs) as E.
  split; [exact E|]. intros ai other.
  unfold removeAccessories, isolateOutfit, dressModel, bind, lift.
  rewrite E. repeat split.
  destruct (fileToGenerativePart other) as [part|e] eqn:Eo; [reflexivity|].
  now rewrite (encoder_throws_format_error_only _ _ Eo).
Qed.

(** The amended C8 at [X = iVBORw0KGgo=] and at an input with no
    [;base64,] marker. *)
Lemma encoder_roundtrip_and_format_error_witness :
  fileToGenerativePart "data:image/png;base64,iVBORw0KGgo="
  = Returned (imagePart "image/png" "iVBORw0KGgo=") /\
  fileToGenerativePart "https://example.com/a.png" = Threw invalidFormat.
Proof.
  split.
  - apply (proj1 encoder_roundtrip_and_format_error "iVBORw0KGgo="). reflexivity.
  - apply (proj2 encoder_roundtrip_and_format_error "https://example.com/a.png").
    intros (mime & payload & H). discriminate H.
Defined.

End EncoderClaims.

(** ** The decoder: processGeminiResponse *)

Section Decoder.

(** The parts the decoder scans are those of the first candidate, when
    the response has one with content and parts. *)
Lemma firstCandidateParts_of_first (ps : list Part.t)
    (others : list Candidate) (textResponse : option string) :
  firstCandidateParts
    (Response.mk (Some (mkCandidate (Some (mkContent (Some ps))) :: others))
       textResponse)
  = ps.
Proof. reflexivity. Qed.

Lemma firstInlineImage_skips (before after : list Part.t) (part : Part.t)
    (blob : Blob) :
  (forall p, In p before -> Part.inlineData p = None) ->
  Part.inlineData part = Some blob ->
  firstInlineImage (before ++ part :: after)
  = Some ("data:" ++ interpolate (mimeType blob) ++ ";base64," ++
          interpolate (data blob)).
Proof.
  intros Hb Hp. induction before as [|q before IH]; simpl.
  - now rewrite Hp.
  - rewrite (Hb q (or_introl eq_refl)). apply IH.
    intros p Hin. apply Hb. now right.
Qed.

Lemma firstInlineImage_none (ps : list Part.t) :
  (forall p, In p ps -> Part.inlineData p = None) ->
  firstInlineImage ps = None.
Proof.
  induction ps as [|q ps IH]; intros H; simpl; [reflexivity|].
  rewrite (H q (or_introl eq_refl)). apply IH.
  intros p Hin. apply H. now right.
Qed.

(** C7: decoding returns the first part of the first candidate that has
    inline data, as the data URL made of that part's own mime type and
    payload; when no part has inline data it throws an error whose message
    quotes the text of the response, or the fixed placeholder when the
    response has no text (or an empty one), and so contains it. *)
Theorem decode_first_inline_image_or_text_error (response : Response.t) :
  (forall before part after mime payload,
     firstCandidateParts response = (before ++ part :: after)%list ->
     (forall p, In p before -> Part.inlineData p = None) ->
     Part.inlineData part = Some (mkBlob (Some mime) (Some payload)) ->
     processGeminiResponse response
     = Returned ("data:" ++ mime ++ ";base64," ++ payload)) /\
  ((forall p, In p (firstCandidateParts response) ->
      Part.inlineData p = None) ->
   let said := orElse (Response.text response) noTextPlaceholder in
   let message :=
     "The AI model responded with text instead of an image: " ++ dquote ++
     said ++ dquote in
   processGeminiResponse response = Threw (ErrorObj message) /\
   includes message said = true /\
   (forall t, Response.text response = Some t -> t <> "" -> said = t) /\
   (Response.text response = None \/ Response.text response = Some "" ->
    said = "No text response received.")).
Proof.
  split.
  - intros before part after mime payload Hps Hb Hp.
    unfold processGeminiResponse.
    now rewrite Hps, (firstInlineImage_skips _ _ _ _ Hb Hp).
  - intros Hnone said message. unfold processGeminiResponse.
    rewrite (firstInlineImage_none _ Hnone). repeat split.
    + apply includes_occurs.
      exists ("The AI model responded with text instead of an image: " ++ dquote), dquote.
      unfold message. now rewrite append_assoc.
    + intros t Ht Hne. unfold said. rewrite Ht. simpl.
      destruct (String.eqb_spec t ""); [contradiction | reflexivity].
    + intros [H|H]; unfold said; rewrite H; reflexivity.
Qed.

(** C7 on a response whose first candidate has a text part and then an
    image part, and on a response that has only text. *)
Lemma decode_first_inline_image_or_text_error_witness :
  processGeminiResponse
    (Response.mk
       (Some [mkCandidate (Some (mkContent (Some
          [Part.mk None (Some "here it is");
           imagePart "image/jpeg" "AAAA"])))])
       (Some "here it is"))
  = Returned "data:image/jpeg;base64,AAAA" /\
  processGeminiResponse
    (Response.mk
       (Some [mkCandidate (Some (mkContent (Some
          [Part.mk None (Some "I cannot edit this photo.")])))])
       (Some "I cannot edit this photo."))
  = Threw (ErrorObj
      ("The AI model responded with text instead of an image: " ++ dquote ++
       "I cannot edit this photo." ++ dquote)).
Proof.
  split.
  - apply (proj1 (decode_first_inline_image_or_text_error _)
             [Part.mk None (Some "here it is")]
             (imagePart "image/jpeg" "AAAA") [] "image/jpeg" "AAAA").
    + reflexivity.
    + simpl. intros p [<-|[]]. reflexivity.
    + reflexivity.
  - refine (proj1 (proj2 (decode_first_inline_image_or_text_error _) _)).
    simpl. intros p [<-|[]]. reflexivity.
Defined.

End Decoder.

(** ** The retry wrapper: callGeminiWithRetry *)

Section Retry.

Variable ai : Remote.
Variable request : GenerateContentParameters.

(** A failure is taken for transient exactly when the text the wrapper
    inspects holds one of the three markers somewhere. *)
Lemma transient_markers (e : Thrown) :
  transient e = true <->
  exists marker before after,
    (marker = "500" \/ marker = "503" \/ marker = "INTERNAL") /\
    errorMessageOf e = before ++ marker ++ after.
Proof.
  unfold transient, isInternalError.
  rewrite !orb_true_iff, !includes_occurs. split.
  - intros [[(b & a & H) | (b & a & H)] | (b & a & H)].
    + exists "500", b, a. auto.
    + exists "503", b, a. auto.
    + exists "INTERNAL", b, a. auto.
  - intros (marker & b & a & [-> | [-> | ->]] & H); eauto.
Qed.

(** One turn of the loop, by what the attempt settles to. *)
Lemma retryFrom_returned (remaining : nat) (attempt : Z) (response : Response.t) :
  ai attempt request = Returned response ->
  retryFrom ai request (S remaining) attempt
  = (Returned response, [GenerateContent attempt request]).
Proof. intros H. simpl. now rewrite H. Qed.

Lemma retryFrom_final (remaining : nat) (attempt : Z) (e : Thrown) :
  ai attempt request = Threw e ->
  transient e = false \/ (attempt <? maxRetries)%Z = false ->
  retryFrom ai request (S remaining) attempt
  = (Threw e, [GenerateContent attempt request]).
Proof.
  intros H Hlast. simpl. rewrite H. unfold transient in Hlast.
  destruct Hlast as [-> | ->]; [reflexivity | now rewrite andb_false_r].
Qed.

Lemma retryFrom_again (remaining : nat) (attempt : Z) (e : Thrown) :
  ai attempt request = Threw e ->
  transient e = true -> (attempt <? maxRetries)%Z = true ->
  retryFrom ai request (S remaining) attempt
  = (fst (retryFrom ai request remaining (attempt + 1)),
     GenerateContent attempt request
       :: SetTimeout (1000 * 2 ^ (attempt - 1))%Z
       :: snd (retryFrom ai request remaining (attempt + 1))).
Proof.
  intros H Ht Hlt. simpl. rewrite H. unfold transient in Ht. rewrite Ht, Hlt.
  simpl. now destruct (retryFrom ai request remaining (attempt + 1)).
Qed.

(** Every turn of the loop makes one call, and there are at most
    [remaining] turns. *)
Lemma retryFrom_attempts (remaining : nat) (attempt : Z) :
  (attempts (snd (retryFrom ai request remaining attempt)) <= remaining)%nat.
Proof.
  unfold attempts.
  revert attempt; induction remaining as [|remaining IH]; intros attempt; simpl.
  - apply Nat.le_refl.
  - destruct (ai attempt request) as [response|e]; simpl; [lia|].
    destruct (isInternalError (errorMessageOf e) && (attempt <? maxRetries)%Z);
      simpl; [|lia].
    specialize (IH (attempt + 1)%Z).
    destruct (retryFrom ai request remaining (attempt + 1)) as [o more].
    simpl in *. lia.
Qed.

(** [count] transient failures in a row, from [attempt] on and all before
    the last attempt, unroll into their calls and waits. *)
Lemma retryFrom_unroll (count remaining : nat) (attempt : Z) :
  (forall i, (attempt <= i < attempt + Z.of_nat count)%Z ->
     exists e, ai i request = Threw e /\ transient e = true) ->
  (attempt + Z.of_nat count <= maxRetries)%Z ->
  retryFrom ai request (count + remaining) attempt
  = (fst (retryFrom ai request remaining (attempt + Z.of_nat count)),
     (backoffFrom request count attempt ++
      snd (retryFrom ai request remaining (attempt + Z.of_nat count)))%list).
Proof.
  revert attempt; induction count as [|count IH]; intros attempt Hfail Hle.
  - simpl. rewrite Z.add_0_r. now destruct (retryFrom ai request remaining attempt).
  - destruct (Hfail attempt ltac:(lia)) as (e & He & Ht).
    change (S count + remaining)%nat with (S (count + remaining)).
    rewrite (retryFrom_again _ _ _ He Ht) by (apply Z.ltb_lt; lia).
    rewrite IH by (try (intros i Hi; apply Hfail); lia).
    replace (attempt + 1 + Z.of_nat count)%Z with (attempt + Z.of_nat (S count))%Z
      by lia.
    reflexivity.
Qed.

Lemma backoffFrom_last (count : nat) (attempt : Z) :
  backoffFrom request (S count) attempt
  = (backoffFrom request count attempt ++
     [GenerateContent (attempt + Z.of_nat count) request;
      SetTimeout (1000 * 2 ^ (attempt + Z.of_nat count - 1))%Z])%list.
Proof.
  revert attempt; induction count as [|count IH]; intros attempt.
  - simpl. now rewrite Z.add_0_r.
  - change (backoffFrom request (S (S count)) attempt)
      with (GenerateContent attempt request
              :: SetTimeout (1000 * 2 ^ (attempt - 1))%Z
              :: backoffFrom request (S count) (attempt + 1)%Z).
    rewrite IH. simpl.
    now replace (attempt + 1 + Z.of_nat count)%Z
      with (attempt + Z.pos (Pos.of_succ_nat count))%Z by lia.
Qed.

(** A turn of the loop starts with a call. *)
Lemma retryFrom_starts_with_call (remaining : nat) (attempt : Z) :
  exists after,
    snd (retryFrom ai request (S remaining) attempt)
    = GenerateContent attempt request :: after.
Proof.
  simpl. destruct (ai attempt request) as [response|e]; [now exists []|].
  destruct (isInternalError (errorMessageOf e) && (attempt <? maxRetries)%Z).
  - destruct (retryFrom ai request remaining (attempt + 1)) as [o more].
    now eexists.
  - now exists [].
Qed.

(** The run when the first [n - 1] attempts fail transiently and the
    [n]-th is the last one. *)
Lemma run_with_last_attempt (n : Z) :
  (1 <= n <= 3)%Z -> failsTransiently ai request (n - 1) ->
  callGeminiWithRetry ai request
  = (fst (retryFrom ai request (S (Z.to_nat (3 - n))) n),
     (backoff request (n - 1) ++
      snd (retryFrom ai request (S (Z.to_nat (3 - n))) n))%list).
Proof.
  intros Hn Hfail. unfold callGeminiWithRetry, backoff.
  replace (Z.to_nat maxRetries)
    with (Z.to_nat (n - 1) + S (Z.to_nat (3 - n)))%nat by (unfold maxRetries; lia).
  rewrite retryFrom_unroll.
  - now replace (1 + Z.of_nat (Z.to_nat (n - 1)))%Z with n by lia.
  - intros i Hi. apply Hfail. lia.
  - unfold maxRetries. lia.
Qed.

End Retry.

(** C2: whatever the remote calls settle to, the wrapper makes at most 3
    attempts; when attempts [1 .. n] with [n < 3] have all failed with a
    message that contains [500], [503] or [INTERNAL], attempt [n] is
    followed by a wait of [1000 * 2 ^ (n - 1)] ms and then by attempt
    [n + 1]; a failure without such a message, and any failure of attempt
    3, is thrown on as it is, the attempt being the last effect; and a
    success of attempt [n] is the result, again with nothing after it. *)
Theorem retry_policy (ai : Remote) (request : GenerateContentParameters) :
  let run := callGeminiWithRetry ai request in
  (attempts (snd run) <= 3)%nat /\
  (forall n, (1 <= n < 3)%Z -> failsTransiently ai request n ->
     exists before after,
       snd run
       = (before ++ GenerateContent n request
                 :: SetTimeout (1000 * 2 ^ (n - 1))%Z
                 :: GenerateContent (n + 1) request :: after)%list) /\
  (forall n e, (1 <= n <= 3)%Z -> failsTransiently ai request (n - 1) ->
     ai n request = Threw e -> transient e = false \/ n = 3%Z ->
     run = (Threw e,
            (backoff request (n - 1) ++ [GenerateContent n request])%list)) /\
  (forall n response, (1 <= n <= 3)%Z ->
     failsTransiently ai request (n - 1) ->
     ai n request = Returned response ->
     run = (Returned response,
            (backoff request (n - 1) ++ [GenerateContent n request])%list)).
Proof.
  intros run. unfold run. repeat split.
  - apply (retryFrom_attempts ai request 3 1).
  - intros n Hn Hfail.
    rewrite (run_with_last_attempt ai request (n + 1)) by
      (try lia; intros i Hi; apply Hfail; lia).
    destruct (retryFrom_starts_with_call ai request (Z.to_nat (3 - (n + 1))) (n + 1))
      as [after ->].
    unfold backoff. replace (Z.to_nat (n + 1 - 1)) with (S (Z.to_nat (n - 1))) by lia.
    rewrite backoffFrom_last, <- app_assoc. cbn [app].
    replace (1 + Z.of_nat (Z.to_nat (n - 1)))%Z with n by lia.
    now exists (backoffFrom request (Z.to_nat (n - 1)) 1), after.
  - intros n e Hn Hfail He Hlast.
    rewrite (run_with_last_attempt ai request n Hn Hfail).
    rewrite (retryFrom_final ai request _ _ _ He); [reflexivity|].
    destruct Hlast as [H| ->]; [now left | now right].
  - intros n response Hn Hfail Hr.
    rewrite (run_with_last_attempt ai request n Hn Hfail).
    now rewrite (retryFrom_returned ai request _ _ _ Hr).
Qed.

(** C2 on two remotes: one that answers [503] twice and then succeeds
    (three attempts, waits of 1000 and 2000 ms), and one that answers
    [400] at once (a single attempt, no wait). *)
Lemma retry_policy_witness :
  let request := mkRequest imageEditModel [] in
  let response := Response.mk None (Some "ok") in
  let flaky : Remote := fun attempt _ =>
    if (attempt <? 3)%Z then Threw (ErrorObj "503 Service Unavailable")
    else Returned response in
  let refusing : Remote := fun _ _ => Threw (ErrorObj "400 Bad Request") in
  callGeminiWithRetry flaky request
  = (Returned response,
     [GenerateContent 1 request; SetTimeout 1000;
      GenerateContent 2 request; SetTimeout 2000;
      GenerateContent 3 request]) /\
  callGeminiWithRetry refusing request
  = (Threw (ErrorObj "400 Bad Request"), [GenerateContent 1 request]).
Proof.
  intros request response flaky refusing. split.
  - apply (proj2 (proj2 (proj2 (retry_policy flaky request))) 3%Z response).
    + lia.
    + intros i Hi. exists (ErrorObj "503 Service Unavailable").
      assert (i = 1 \/ i = 2)%Z as [-> | ->] by lia; split; reflexivity.
    + reflexivity.
  - apply (proj1 (proj2 (proj2 (retry_policy refusing request))) 1%Z
             (ErrorObj "400 Bad Request")).
    + lia.
    + intros i Hi. lia.
    + reflexivity.
    + left. reflexivity.
Defined.

(** ** The workflow handlers *)

Section Workflow.

Lemma truthy_nonEmpty (v : option string) : truthy v = true <-> nonEmpty v.
Proof.
  unfold truthy, nonEmpty. destruct v as [image|].
  - destruct (String.eqb_spec image ""); simpl; split.
    + discriminate.
    + intros (i & [= <-] & Hne). contradiction.
    + intros _. now exists image.
    + reflexivity.
  - split; [discriminate | intros (i & H & _); discriminate].
Qed.

Lemma not_nonEmpty_falsy (v : option string) : ~ nonEmpty v -> truthy v = false.
Proof.
  intros H. destruct (truthy v) eqn:E; [|reflexivity].
  exfalso. now apply H, truthy_nonEmpty.
Qed.

Lemma nonEmpty_value (v : option string) :
  nonEmpty v -> v = Some (nonNull v) /\ nonNull v <> "".
Proof. intros (image & -> & Hne). now split. Qed.

(** C3: [handleProcess] returns at once, leaving the whole state (the
    three steps and the album) as it was and performing no effect (no
    remote call, no wait), for step 3 unless the processed images of
    steps 1 and 2 are both non-empty, and for step 1 or 2 unless the
    original image of that step is non-empty. *)
Theorem process_without_input_is_noop (ai : Remote) (s : State) :
  (~ (nonEmpty (processedImage (step1 s)) /\
      nonEmpty (processedImage (step2 s))) ->
   handleProcess ai 3 s = (s, [])) /\
  (~ nonEmpty (originalImage (step1 s)) -> handleProcess ai 1 s = (s, [])) /\
  (~ nonEmpty (originalImage (step2 s)) -> handleProcess ai 2 s = (s, [])).
Proof.
  unfold handleProcess, startProcess, choose. repeat split.
  - intros H. simpl.
    destruct (truthy (processedImage (step1 s))) eqn:E1;
      destruct (truthy (processedImage (step2 s))) eqn:E2; try reflexivity.
    exfalso. apply H. now split; apply truthy_nonEmpty.
  - intros H. simpl. now rewrite (not_nonEmpty_falsy _ H).
  - intros H. simpl. now rewrite (not_nonEmpty_falsy _ H).
Qed.

(** C3 on the initial state (nothing uploaded, nothing processed) and a
    remote that would answer. *)
Lemma process_without_input_is_noop_witness :
  let ai : Remote := fun _ _ => Returned (Response.mk None None) in
  handleProcess ai 3 initialState = (initialState, []) /\
  handleProcess ai 1 initialState = (initialState, []) /\
  handleProcess ai 2 initialState = (initialState, []).
Proof.
  intros ai.
  pose proof (process_without_input_is_noop ai initialState) as (H3 & H1 & H2).
  split; [|split].
  - apply H3. intros [(image & H & _) _]. discriminate H.
  - apply H1. intros (image & H & _). discriminate H.
  - apply H2. intros (image & H & _). discriminate H.
Defined.

(** C4: an upload at step 1 or 2 puts that step in [uploaded] with the new
    image as original image, no processed image, no error and no approval,
    and puts every later step back to the initial step state; earlier
    steps and the album stay. *)
Theorem upload_resets_downstream (s : State) (imageUrl : string)
    (others : list string) :
  handleImageUpload (imageUrl :: others) 1 s
  = {| step1 := {| status := Uploaded; originalImage := Some imageUrl;
                   processedImage := None; error := None;
                   approved := false |};
       step2 := initialStepState;
       step3 := initialStepState;
       album := album s |} /\
  handleImageUpload (imageUrl :: others) 2 s
  = {| step1 := step1 s;
       step2 := {| status := Uploaded; originalImage := Some imageUrl;
                   processedImage := None; error := None;
                   approved := false |};
       step3 := initialStepState;
       album := album s |}.
Proof. split; reflexivity. Qed.

(** C5: a retry of step 1 puts it in [uploaded] with its original image
    kept and its processed image, error and approval cleared, and resets
    steps 2 and 3; a retry of step 2 does the same to step 2 and resets
    step 3 only; a retry of step 3 is [handleProcess] of step 3, and
    leaves steps 1 and 2 as they were. *)
Theorem retry_cascades_downstream (ai : Remote) (s : State) :
  handleRetry ai 1 s
  = ({| step1 := {| status := Uploaded;
                    originalImage := originalImage (step1 s);
                    processedImage := None; error := None;
                    approved := false |};
        step2 := initialStepState;
        step3 := initialStepState;
        album := album s |}, []) /\
  handleRetry ai 2 s
  = ({| step1 := step1 s;
        step2 := {| status := Uploaded;
                    originalImage := originalImage (step2 s);
                    processedImage := None; error := None;
                    approved := false |};
        step3 := initialStepState;
        album := album s |}, []) /\
  handleRetry ai 3 s = handleProcess ai 3 s /\
  step1 (fst (handleRetry ai 3 s)) = step1 s /\
  step2 (fst (handleRetry ai 3 s)) = step2 s.
Proof.
  repeat split; try reflexivity;
    unfold handleRetry, startRetry, startProcess, choose, complete, settle; simpl;
    destruct (truthy (processedImage (step1 s)) && truthy (processedImage (step2 s)));
    simpl; try reflexivity;
    destruct (fst (dressModel ai _ _)); reflexivity.
Qed.

End Workflow.

(** ** The album and the frame of a failed call *)

Section AlbumAndFailure.

Lemma update_keeps_album (u : Updater) (f : StepState -> StepState) (s : State) :
  album (update u f s) = album s.
Proof. destruct u; reflexivity. Qed.

Lemma settle_keeps_album (call : Pending) (s : State) :
  album (settle call s) = album s.
Proof.
  unfold settle. destruct (fst (apiCall call)); apply update_keeps_album.
Qed.

Lemma startProcess_keeps_album (ai : Remote) (k : Z) (s : State) :
  album (fst (startProcess ai k s)) = album s.
Proof.
  unfold startProcess. destruct (choose ai k s) as [call|]; simpl;
    [apply update_keeps_album | reflexivity].
Qed.

Lemma complete_keeps_album (started : State * option Pending) :
  album (fst (complete started)) = album (fst started).
Proof.
  destruct started as [s [call|]]; simpl; [apply settle_keeps_album | reflexivity].
Qed.

Lemma startRetry_keeps_album (ai : Remote) (k : Z) (s : State) :
  album (fst (startRetry ai k s)) = album s.
Proof.
  unfold startRetry.
  destruct (k =? 1)%Z; [reflexivity|].
  destruct (k =? 2)%Z; [reflexivity|].
  destruct (k =? 3)%Z; [apply startProcess_keeps_album | reflexivity].
Qed.

Lemma handleApprove_keeps_album (k : Z) (s : State) :
  album (handleApprove k s) = album s.
Proof. unfold handleApprove. destruct (k =? 1)%Z, (k =? 2)%Z; reflexivity. Qed.

Lemma handleImageUpload_keeps_album (files : list string) (k : Z) (s : State) :
  album (handleImageUpload files k s) = album s.
Proof.
  unfold handleImageUpload. destruct files as [|imageUrl others]; [reflexivity|].
  destruct (k =? 1)%Z, (k =? 2)%Z; reflexivity.
Qed.

Lemma launch_view (p : Page) (started : State * option Pending) :
  view (launch p started) = fst started.
Proof. destruct started as [s [call|]]; reflexivity. Qed.

Lemma statusIs_eq (a b : StepStatus) : statusIs a b = true <-> a = b.
Proof. destruct a, b; simpl; split; congruence. Qed.

(** C6: saving to the album, for a non-empty processed image of step 3,
    appends that image after the entries the album has, resets steps 2 and
    3 to the initial step state and leaves step 1 alone; without such an
    image it changes nothing.  No other handler changes the album, nor
    does the continuation of a call that settles; and on the page the
    album changes only when the approve control of card 3 is worked, which
    the card offers only when step 3 is done, and then only if its
    processed image is non-empty. *)
Theorem album_grows_only_by_save :
  (forall s image,
     processedImage (step3 s) = Some image -> image <> "" ->
     handleSaveToAlbum s
     = {| step1 := step1 s; step2 := initialStepState;
          step3 := initialStepState;
          album := (album s ++ [image])%list |}) /\
  (forall s, ~ nonEmpty (processedImage (step3 s)) ->
     handleSaveToAlbum s = s) /\
  (forall ai files k call s,
     album (handleImageUpload files k s) = album s /\
     album (fst (handleProcess ai k s)) = album s /\
     album (fst (handleRetry ai k s)) = album s /\
     album (handleApprove k s) = album s /\
     album (settle call s) = album s) /\
  (forall e p,
     album (view (react e p)) <> album (view p) ->
     e = ClickApprove Card3 /\
     status (step3 (view p)) = Done /\
     nonEmpty (processedImage (step3 (view p)))).
Proof.
  split; [|split; [|split]].
  - intros s image H Hne. unfold handleSaveToAlbum.
    assert (T : truthy (processedImage (step3 s)) = true)
      by (apply truthy_nonEmpty; now exists image).
    rewrite T. simpl. unfold setStep3, setStep2, setAlbum. simpl.
    now rewrite H.
  - intros s H. unfold handleSaveToAlbum.
    now rewrite (not_nonEmpty_falsy _ H).
  - intros ai files k call s. repeat split.
    + apply handleImageUpload_keeps_album.
    + unfold handleProcess.
      now rewrite complete_keeps_album, startProcess_keeps_album.
    + unfold handleRetry.
      now rewrite complete_keeps_album, startRetry_keeps_album.
    + apply handleApprove_keeps_album.
    + apply settle_keeps_album.
  - intros e p Hchg. unfold react in Hchg.
    destruct (offered e (view p)) eqn:Hoff; [|contradiction].
    destruct e as [card files|card ai|card ai|card|card|n]; simpl in Hchg.
    + now rewrite handleImageUpload_keeps_album in Hchg.
    + now rewrite launch_view, startProcess_keeps_album in Hchg.
    + now rewrite launch_view, startRetry_keeps_album in Hchg.
    + destruct card; simpl in Hchg;
        try rewrite handleApprove_keeps_album in Hchg; try congruence.
      unfold offered in Hoff. simpl in Hoff.
      apply andb_true_iff in Hoff as [Hdone _].
      apply statusIs_eq in Hdone.
      repeat split; [exact Hdone|].
      apply truthy_nonEmpty.
      destruct (truthy (processedImage (step3 (view p)))) eqn:T; [reflexivity|].
      unfold handleSaveToAlbum in Hchg. rewrite T in Hchg. now simpl in Hchg.
    + contradiction.
    + destruct (nth_error (inflight p) n) as [call|]; [|contradiction].
      simpl in Hchg. now rewrite settle_keeps_album in Hchg.
Qed.

(** C6 on a state whose step 3 holds a result and on the initial state. *)
Lemma album_grows_only_by_save_witness :
  let finished :=
    {| status := Done; originalImage := None;
       processedImage := Some "data:image/png;base64,AAAA";
       error := None; approved := false |} in
  let s :=
    {| step1 := initialStepState; step2 := initialStepState;
       step3 := finished; album := ["data:image/png;base64,BBBB"] |} in
  handleSaveToAlbum s
  = {| step1 := initialStepState; step2 := initialStepState;
       step3 := initialStepState;
       album := ["data:image/png;base64,BBBB"; "data:image/png;base64,AAAA"] |} /\
  handleSaveToAlbum initialState = initialState.
Proof.
  intros finished s. split.
  - apply (proj1 album_grows_only_by_save s "data:image/png;base64,AAAA").
    + reflexivity.
    + discriminate.
  - apply (proj1 (proj2 album_grows_only_by_save) initialState).
    intros (image & H & _). discriminate H.
Defined.

Lemma failed_call_frame (call : Pending) (s : State) (err : Thrown) :
  fst (apiCall call) = Threw err ->
  settle call (update (updater call) markProcessing s)
  = update (updater call)
      (fun prev =>
         {| status := Error; originalImage := originalImage prev;
            processedImage := processedImage prev;
            error := Some (surfacedMessage err);
            approved := approved prev |}) s.
Proof.
  intros H. unfold settle. rewrite H. destruct (updater call); reflexivity.
Qed.

(** C10: when [handleProcess] passes its guard and the call it makes
    fails, the step ends with status [error] and the message of the
    failure, its original image, processed image and approval being what
    they were before; the other two steps and the album are unchanged. *)
Theorem failed_process_keeps_step_data (ai : Remote) (s : State) (err : Thrown) :
  let failed (prev : StepState) :=
    {| status := Error; originalImage := originalImage prev;
       processedImage := processedImage prev;
       error := Some (surfacedMessage err);
       approved := approved prev |} in
  (forall image,
     originalImage (step1 s) = Some image -> image <> "" ->
     fst (removeAccessories ai image) = Threw err ->
     fst (handleProcess ai 1 s)
     = {| step1 := failed (step1 s); step2 := step2 s; step3 := step3 s;
          album := album s |}) /\
  (forall image,
     originalImage (step2 s) = Some image -> image <> "" ->
     fst (isolateOutfit ai image) = Threw err ->
     fst (handleProcess ai 2 s)
     = {| step1 := step1 s; step2 := failed (step2 s); step3 := step3 s;
          album := album s |}) /\
  (forall model outfit,
     processedImage (step1 s) = Some model -> model <> "" ->
     processedImage (step2 s) = Some outfit -> outfit <> "" ->
     fst (dressModel ai model outfit) = Threw err ->
     fst (handleProcess ai 3 s)
     = {| step1 := step1 s; step2 := step2 s; step3 := failed (step3 s);
          album := album s |}).
Proof.
  intros failed. unfold handleProcess, startProcess, choose.
  split; [|split].
  - intros image H Hne Hcall.
    assert (T : truthy (originalImage (step1 s)) = true)
      by (apply truthy_nonEmpty; now exists image).
    simpl. rewrite T, H. simpl.
    now rewrite failed_call_frame with (err := err).
  - intros image H Hne Hcall.
    assert (T : truthy (originalImage (step2 s)) = true)
      by (apply truthy_nonEmpty; now exists image).
    simpl. rewrite T, H. simpl.
    now rewrite failed_call_frame with (err := err).
  - intros model outfit H1 Hne1 H2 Hne2 Hcall.
    assert (T1 : truthy (processedImage (step1 s)) = true)
      by (apply truthy_nonEmpty; now exists model).
    assert (T2 : truthy (processedImage (step2 s)) = true)
      by (apply truthy_nonEmpty; now exists outfit).
    simpl. rewrite T1, T2, H1, H2. simpl.
    now rewrite failed_call_frame with (err := err).
Qed.

End AlbumAndFailure.

(** ** Approval on the page *)

Section Approval.

Lemma update_approved (u : Updater) (f : StepState -> StepState) (s : State)
    (card : Card) :
  (forall prev, approved (f prev) = approved prev) ->
  approved (cardState card (update u f s)) = approved (cardState card s).
Proof. intros Hf. destruct u, card; simpl; auto. Qed.

Lemma settle_approved (call : Pending) (s : State) (card : Card) :
  approved (cardState card (settle call s)) = approved (cardState card s).
Proof.
  unfold settle. destruct (fst (apiCall call)); now apply update_approved.
Qed.

Lemma startProcess_approved (ai : Remote) (k : Z) (s : State) (card : Card) :
  approved (cardState card (fst (startProcess ai k s)))
  = approved (cardState card s).
Proof.
  unfold startProcess. destruct (choose ai k s) as [call|]; simpl;
    [now apply update_approved | reflexivity].
Qed.

Lemma startRetry_approved (ai : Remote) (k : Z) (s : State) (card : Card) :
  approved (cardState card (fst (startRetry ai k s))) = true ->
  approved (cardState card s) = true.
Proof.
  unfold startRetry.
  destruct (k =? 1)%Z; [destruct card; simpl; congruence|].
  destruct (k =? 2)%Z; [destruct card; simpl; congruence|].
  destruct (k =? 3)%Z; [now rewrite startProcess_approved | trivial].
Qed.

Lemma handleImageUpload_approved (files : list string) (k : Z) (s : State)
    (card : Card) :
  approved (cardState card (handleImageUpload files k s)) = true ->
  approved (cardState card s) = true.
Proof.
  unfold handleImageUpload. destruct files as [|imageUrl others]; [trivial|].
  destruct (k =? 1)%Z; [destruct card; simpl; congruence|].
  destruct (k =? 2)%Z; [destruct card; simpl; congruence | trivial].
Qed.

Lemma handleSaveToAlbum_approved (s : State) (card : Card) :
  approved (cardState card (handleSaveToAlbum s)) = true ->
  approved (cardState card s) = true.
Proof.
  unfold handleSaveToAlbum.
  destruct (negb (truthy (processedImage (step3 s)))); [trivial|].
  destruct card; simpl; congruence.
Qed.

(** An approval that appears on a page was given to a step that was done
    on the page before. *)
Lemma approval_origin (e : Event) (p : Page) (card : Card) :
  approved (cardState card (view (react e p))) = true ->
  approved (cardState card (view p)) = true \/
  status (cardState card (view p)) = Done.
Proof.
  unfold react. destruct (offered e (view p)) eqn:Hoff; [|now left].
  destruct e as [c files|c ai|c ai|c|c|n]; simpl.
  - intros H. left. eapply handleImageUpload_approved, H.
  - rewrite launch_view, startProcess_approved. now left.
  - rewrite launch_view. intros H. left. eapply startRetry_approved, H.
  - unfold offered in Hoff. simpl in Hoff.
    apply andb_true_iff in Hoff as [Hdone _]. apply statusIs_eq in Hdone.
    destruct c.
    + destruct card; simpl; auto.
    + destruct card; simpl; auto.
    + intros H. left. eapply handleSaveToAlbum_approved, H.
  - now left.
  - destruct (nth_error (inflight p) n) as [call|]; [|now left].
    simpl. rewrite settle_approved. now left.
Qed.

(** Along any sequence of events, a step approved on some page was
    approved on the first page or done on an earlier one. *)
Lemma approved_since (events : list Event) :
  forall (start p : Page) (n : nat) (card : Card),
    nth_error (pages start events) n = Some p ->
    approved (cardState card (view p)) = true ->
    approved (cardState card (view start)) = true \/
    exists m q, (m < n)%nat /\
                nth_error (pages start events) m = Some q /\
                status (cardState card (view q)) = Done.
Proof.
  induction events as [|e events IH]; intros start p n card Hn Hp.
  - destruct n as [|n]; simpl in Hn.
    + injection Hn as <-. now left.
    + now destruct n.
  - destruct n as [|n]; simpl in Hn.
    + injection Hn as <-. now left.
    + destruct (IH _ _ _ _ Hn Hp) as [Hnext | (m & q & Hm & Hq & Hdone)].
      * destruct (approval_origin _ _ _ Hnext) as [Hstart | Hdone];
          [now left | right].
        exists 0%nat, start. repeat split; [lia | exact Hdone].
      * right. exists (S m), q. repeat split; [lia | exact Hq | exact Hdone].
Qed.

(** C1, the claim as it stands fails: [handleApprove] on a step that is
    idle, and was never done, approves it. *)
Lemma approve_has_no_status_check :
  status (step1 initialState) = Idle /\
  approved (step1 (handleApprove 1 initialState)) = true /\
  handleApprove 1 initialState <> initialState.
Proof. repeat split. discriminate. Qed.

(** C1, amended: [handleApprove] itself checks no status: for step 1 or
    2 it sets [approved] and leaves the status, the images and the error
    of the step, the other steps and the album as they are.  The gate is
    the card, which renders the approve control only while the step is
    done and not yet approved: along every sequence of page events from
    the initial page, a step that is approved on some page was done on an
    earlier page. *)
Theorem approval_follows_done :
  (forall s,
     handleApprove 1 s
     = {| step1 := {| status := status (step1 s);
                      originalImage := originalImage (step1 s);
                      processedImage := processedImage (step1 s);
                      error := error (step1 s);
                      approved := true |};
          step2 := step2 s; step3 := step3 s; album := album s |} /\
     handleApprove 2 s
     = {| step1 := step1 s;
          step2 := {| status := status (step2 s);
                      originalImage := originalImage (step2 s);
                      processedImage := processedImage (step2 s);
                      error := error (step2 s);
                      approved := true |};
          step3 := step3 s; album := album s |}) /\
  (forall card state,
     renders (hasImageUpload card) state ApproveButton = true ->
     status state = Done /\ approved state = false) /\
  (forall events n p card,
     nth_error (pages initialPage events) n = Some p ->
     approved (cardState card (view p)) = true ->
     exists m q, (m < n)%nat /\
                 nth_error (pages initialPage events) m = Some q /\
                 status (cardState card (view q)) = Done).
Proof.
  split; [|split].
  - intros s. split; reflexivity.
  - intros card state H. simpl in H. apply andb_true_iff in H as [Hd Ha].
    apply statusIs_eq in Hd. apply negb_true_iff in Ha. now split.
  - intros events n p card Hn Hp.
    destruct (approved_since events _ _ _ _ Hn Hp) as [Hinit | H]; [|exact H].
    destruct card; discriminate Hinit.
Qed.

End Approval.

(** C1 on the page after an upload to card 1, a successful processing
    and an approval: step 1 is approved on page 4 and was done before. *)
Lemma approval_follows_done_witness :
  let image := "data:image/png;base64,AAAA" in
  let ai : Remote := fun _ _ =>
    Returned (Response.mk
      (Some [mkCandidate (Some (mkContent (Some [imagePart "image/png" "BBBB"])))])
      None) in
  let events :=
    [ChooseFiles Card1 [image]; ClickProcess Card1 ai; Settles 0;
     ClickApprove Card1] in
  exists m q, (m < 4)%nat /\
              nth_error (pages initialPage events) m = Some q /\
              status (cardState Card1 (view q)) = Done.
Proof.
  intros image ai events.
  eapply (proj2 (proj2 approval_follows_done) events 4%nat _ Card1).
  - reflexivity.
  - reflexivity.
Defined.

(** C10 on a step 1 that was done and approved and whose reprocessing is
    refused by the remote: the old result and the approval stay. *)
Lemma failed_process_keeps_step_data_witness :
  let image := "data:image/png;base64,AAAA" in
  let old := "data:image/png;base64,CCCC" in
  let refusing : Remote := fun _ _ => Threw (ErrorObj "400 Bad Request") in
  let s :=
    {| step1 := {| status := Done; originalImage := Some image;
                   processedImage := Some old; error := None;
                   approved := true |};
       step2 := initialStepState; step3 := initialStepState; album := [] |} in
  fst (handleProcess refusing 1 s)
  = {| step1 := {| status := Error; originalImage := Some image;
                   processedImage := Some old;
                   error := Some "400 Bad Request";
                   approved := true |};
       step2 := initialStepState; step3 := initialStepState; album := [] |}.
Proof.
  intros image old refusing s.
  apply (proj1 (failed_process_keeps_step_data refusing s
                  (ErrorObj "400 Bad Request")) image).
  - reflexivity.
  - discriminate.
  - reflexivity.
Defined.

(** ** The album page *)

Section AlbumPage.

Local Open Scope float_scope.

Import AlbumUtils.

(** The rows above an image all have a first image to measure. *)
Lemma addRowsAbove_defined (loadedImages : list HTMLImageElement)
    (rowsLeft i : nat) (yOffset : float) :
  ((i + rowsLeft) * grid.cols <= List.length loadedImages)%nat ->
  exists y, addRowsAbove loadedImages rowsLeft i yOffset = Some y.
Proof.
  revert i yOffset; induction rowsLeft as [|rowsLeft IH]; intros i yOffset Hle.
  - now exists yOffset.
  - simpl.
    destruct (nth_error loadedImages (i * grid.cols)) as [prevImg|] eqn:Hnth.
    + apply IH. unfold grid.cols in *. lia.
    + apply nth_error_None in Hnth. unfold grid.cols in *. lia.
Qed.

(** Every image of the list gets a rectangle. *)
Lemma placeAt_defined (loadedImages : list HTMLImageElement) (index : nat) :
  (index < List.length loadedImages)%nat ->
  exists rect, placeAt loadedImages index = Some rect.
Proof.
  intros Hlt. unfold placeAt.
  destruct (nth_error loadedImages index) as [img|] eqn:Hnth.
  - unfold place.
    destruct (addRowsAbove_defined loadedImages (index / grid.cols) 0
                (contentTopMargin + grid.padding)) as [y ->].
    + pose proof (Nat.Div0.mul_div_le index grid.cols). unfold grid.cols in *. lia.
    + now eexists.
  - apply nth_error_None in Hnth. lia.
Qed.

(** C9: the cell width is [(2480 - 3 * 80) / 2], that is 1120; the image
    at index [i] is drawn at [x = padding + (i mod 2) * (cellWidth +
    padding)], as wide as a cell and as high as the cell width divided by
    its own aspect ratio; three images make [ceil(3 / 2) = 2] rows; and
    the image that opens the second row is drawn at the [y] that sums the
    header margin 350, the padding 80, the scaled height of the image at
    index 0 and the padding again, in the order the code adds them:
    [(350 + 80) + (height + 80)]. *)
Theorem album_layout :
  cellWidth = (2480 - 3 * 80) / 2 /\
  cellWidth = 1120 /\
  (forall loadedImages i,
     (i < List.length loadedImages)%nat ->
     exists img rect,
       nth_error loadedImages i = Some img /\
       placeAt loadedImages i = Some rect /\
       x rect = grid.padding + num (i mod 2) * (cellWidth + grid.padding) /\
       drawWidth rect = cellWidth /\
       drawHeight rect = cellWidth / (naturalWidth img / naturalHeight img)) /\
  (forall a b c, rows [a; b; c] = 2%nat) /\
  (forall a b c,
     exists rect,
       placeAt [a; b; c] 2 = Some rect /\
       y rect
       = (350 + 80) + (cellWidth / (naturalWidth a / naturalHeight a) + 80)).
Proof.
  split; [reflexivity|]. split; [reflexivity|]. split; [|split].
  - intros loadedImages i Hlt.
    destruct (placeAt_defined loadedImages i Hlt) as [rect Hrect].
    unfold placeAt in *.
    destruct (nth_error loadedImages i) as [img|]; [|discriminate].
    exists img, rect. split; [reflexivity|]. split; [exact Hrect|].
    unfold place in Hrect.
    destruct (addRowsAbove loadedImages (i / grid.cols) 0 _); [|discriminate].
    injection Hrect as <-. repeat split.
  - reflexivity.
  - intros a b c. eexists. split; reflexivity.
Qed.

(** C9 on three portrait images of 1000 by 1500: the third one opens
    the second row, in the left column. *)
Lemma album_layout_witness :
  let img := mkImage 1000 1500 in
  exists rect,
    placeAt [img; img; img] 2 = Some rect /\
    x rect = grid.padding + num (2 mod 2) * (cellWidth + grid.padding) /\
    drawWidth rect = cellWidth.
Proof.
  intros img.
  destruct (proj1 (proj2 (proj2 album_layout)) [img; img; img] 2%nat)
    as (i & rect & Hi & Hrect & Hx & Hw & _).
  - simpl. lia.
  - exists rect. repeat split; assumption.
Defined.

End AlbumPage.

(** ** Further properties of the client and of the page *)

Section Further.

(** The definitions at work on small inputs. *)
Example matchDataUrl_jpeg :
  matchDataUrl "data:image/jpeg;base64,/9j/4AAQ" = Some ("image/jpeg", "/9j/4AAQ").
Proof. reflexivity. Qed.

Example matchDataUrl_svg_rejected :
  matchDataUrl "data:image/svg+xml;base64,PHN2Zz4=" = None.
Proof. reflexivity. Qed.

Example matchDataUrl_text_rejected :
  matchDataUrl "data:text/plain;base64,aGk=" = None.
Proof. reflexivity. Qed.

Example isInternalError_503 :
  isInternalError "got status: 503 Service Unavailable" = true.
Proof. reflexivity. Qed.

Example isInternalError_internal :
  isInternalError "{ code: 13, status: INTERNAL }" = true.
Proof. reflexivity. Qed.

Example isInternalError_quota :
  isInternalError "429 RESOURCE_EXHAUSTED" = false.
Proof. reflexivity. Qed.

Example backoff_two :
  backoff (mkRequest imageEditModel []) 2
  = [GenerateContent 1 (mkRequest imageEditModel []); SetTimeout 1000;
     GenerateContent 2 (mkRequest imageEditModel []); SetTimeout 2000].
Proof. reflexivity. Qed.

(** The [throw] that follows the loop of [callGeminiWithRetry] is never
    reached, as the comment above it expects: every run ends with a call,
    so it has at least one effect. *)
Theorem retry_loop_is_left_from_inside (ai : Remote)
    (request : GenerateContentParameters) :
  exists before attempt,
    (1 <= attempt <= 3)%Z /\
    snd (callGeminiWithRetry ai request)
    = (before ++ [GenerateContent attempt request])%list.
Proof.
  unfold callGeminiWithRetry. change (Z.to_nat maxRetries) with 3%nat.
  assert (G : forall remaining attempt,
            (attempt + Z.of_nat remaining = maxRetries)%Z ->
            exists before last,
              (attempt <= last <= 3)%Z /\
              snd (retryFrom ai request (S remaining) attempt)
              = (before ++ [GenerateContent last request])%list).
  { unfold maxRetries.
    induction remaining as [|remaining IH]; intros attempt Hsync;
      destruct (ai attempt request) as [r|e] eqn:Hai.
    - rewrite (retryFrom_returned _ _ _ _ _ Hai). exists [], attempt. split; [lia|reflexivity].
    - rewrite (retryFrom_final _ _ _ _ _ Hai)
        by (right; apply Z.ltb_ge; unfold maxRetries; lia).
      exists [], attempt. split; [lia|reflexivity].
    - rewrite (retryFrom_returned _ _ _ _ _ Hai). exists [], attempt. split; [lia|reflexivity].
    - destruct (transient e) eqn:Ht.
      + rewrite (retryFrom_again _ _ _ _ _ Hai Ht)
          by (apply Z.ltb_lt; unfold maxRetries; lia).
        destruct (IH (attempt + 1)%Z ltac:(lia)) as (before & last & Hlast & ->).
        exists (GenerateContent attempt request
                  :: SetTimeout (1000 * 2 ^ (attempt - 1))%Z :: before), last.
        split; [lia|reflexivity].
      + rewrite (retryFrom_final _ _ _ _ _ Hai) by now left.
        exists [], attempt. split; [lia|reflexivity]. }
  apply (G 2%nat 1%Z). reflexivity.
Qed.

(** What the decoder makes of an image part is an image reference the
    encoder takes back, with the same mime type and payload, as long as
    the mime type is [image/] and word characters and the payload has no
    line terminator: the results of steps 1 and 2 can feed step 3. *)
Theorem decoded_image_encodes_back (response : Response.t)
    (others : list Part.t) (w payload : string) :
  firstCandidateParts response = imagePart ("image/" ++ w) payload :: others ->
  w <> "" -> all isWordChar w = true -> singleLine payload = true ->
  exists url,
    processGeminiResponse response = Returned url /\
    fileToGenerativePart url = Returned (imagePart ("image/" ++ w) payload).
Proof.
  intros Hparts Hne Hw Hp. eexists. split.
  - unfold processGeminiResponse. rewrite Hparts. reflexivity.
  - assert (H : matchDataUrl ("data:" ++ "image/" ++ w ++ ";base64," ++ payload)
                = Some ("image/" ++ w, payload)).
    { apply matchDataUrl_accepts. exists w. repeat split; assumption. }
    change (fileToGenerativePart
              ("data:" ++ "image/" ++ w ++ ";base64," ++ payload)
            = Returned (imagePart ("image/" ++ w) payload)).
    unfold fileToGenerativePart. now rewrite H.
Qed.

Lemma decoded_image_encodes_back_witness :
  exists url,
    processGeminiResponse
      (Response.mk
         (Some [mkCandidate (Some (mkContent (Some [imagePart "image/webp" "UklGRg=="])))])
         None)
    = Returned url /\
    fileToGenerativePart url = Returned (imagePart "image/webp" "UklGRg==").
Proof.
  apply (decoded_image_encodes_back _ [] "webp" "UklGRg==");
    try reflexivity.
  discriminate.
Defined.



End Further.

Section FurtherLayout.

Import AlbumUtils.



(** An image is drawn in the left column, at [x = 80], or in the right
    one, at [x = 1280]. *)
Theorem two_columns (loadedImages : list HTMLImageElement) (i : nat)
    (rect : Rect) :
  placeAt loadedImages i = Some rect ->
  ((i mod 2 = 0)%nat /\ x rect = 80%float) \/
  ((i mod 2 = 1)%nat /\ x rect = 1280%float).
Proof.
  unfold placeAt, place. intros H.
  destruct (nth_error loadedImages i) as [img|]; [|discriminate].
  destruct (addRowsAbove loadedImages (i / grid.cols) 0 _); [|discriminate].
  pose proof (Nat.mod_upper_bound i 2 ltac:(lia)) as Hm.
  change grid.cols with 2%nat in H.
  remember (i mod 2)%nat as col eqn:Hcol. clear Hcol.
  injection H as <-.
  destruct col as [|[|col]]; [left|right|lia]; split; reflexivity.
Qed.

Lemma two_columns_witness :
  let img := mkImage 1000 1500 in
  exists rect,
    placeAt [img; img] 1 = Some rect /\ x rect = 1280%float.
Proof.
  intros img. eexists. split; [reflexivity|].
  destruct (two_columns [img; img] 1%nat _ eq_refl) as [[H _]|[_ H]].
  - discriminate H.
  - exact H.
Defined.

End FurtherLayout.

(** ** The three operations of the client *)

Section Operations.

Variable ai : Remote.

(** What follows the encoding in each operation: the call with retries,
    then the decoding of its response. *)
Lemma call_then_decode (request : GenerateContentParameters) :
  (response <- callGeminiWithRetry ai request ;;
   lift (processGeminiResponse response))
  = (match fst (callGeminiWithRetry ai request) with
     | Returned response => processGeminiResponse response
     | Threw e => Threw e
     end,
     snd (callGeminiWithRetry ai request)).
Proof.
  unfold bind, lift.
  destruct (callGeminiWithRetry ai request) as [[response|e] trace]; simpl;
    [|reflexivity].
  destruct (processGeminiResponse response); now rewrite app_nil_r.
Qed.

Lemma retryFrom_requests (request : GenerateContentParameters)
    (remaining : nat) (attempt : Z) :
  Forall (eq request)
    (requestsSent (snd (retryFrom ai request remaining attempt))).
Proof.
  revert attempt; induction remaining as [|remaining IH]; intros attempt; simpl.
  - constructor.
  - destruct (ai attempt request) as [response|e]; simpl; [now repeat constructor|].
    destruct (isInternalError (errorMessageOf e) && (attempt <? maxRetries)%Z);
      [|now repeat constructor].
    specialize (IH (attempt + 1)%Z).
    destruct (retryFrom ai request remaining (attempt + 1)) as [o more].
    simpl in *. now constructor.
Qed.

(** From attempt 1 or later, the waits of the loop add up to at most
    [1000 * (4 - 2 ^ (attempt - 1))] ms. *)
Lemma retryFrom_delay (request : GenerateContentParameters)
    (remaining : nat) (attempt : Z) :
  (1 <= attempt)%Z ->
  (0 <= totalDelay (snd (retryFrom ai request remaining attempt))
   <= 1000 * (4 - 2 ^ (attempt - 1)) \/
   totalDelay (snd (retryFrom ai request remaining attempt)) = 0)%Z.
Proof.
  revert attempt; induction remaining as [|remaining IH]; intros attempt Hge.
  - right. reflexivity.
  - cbn [retryFrom].
    destruct (ai attempt request) as [response|e]; [right; reflexivity|].
    destruct (isInternalError (errorMessageOf e)); [|right; reflexivity].
    destruct (Z.ltb_spec attempt maxRetries) as [Hlt|Hnlt];
      [|right; reflexivity].
    cbn [andb]. specialize (IH (attempt + 1)%Z ltac:(lia)).
    destruct (retryFrom ai request remaining (attempt + 1)) as [o more].
    cbn [snd totalDelay] in *. unfold maxRetries, initialDelay in *.
    replace (attempt + 1 - 1)%Z with (attempt - 1 + 1)%Z in IH by lia.
    rewrite Z.pow_add_r in IH by lia.
    assert (attempt = 1 \/ attempt = 2)%Z as [-> | ->] by lia;
      change (2 ^ (1 - 1))%Z with 1%Z in *; change (2 ^ (2 - 1))%Z with 2%Z in *;
      change (2 ^ 1)%Z with 2%Z in *; left; lia.
Qed.

Lemma call_delay (request : GenerateContentParameters) :
  (0 <= totalDelay (snd (callGeminiWithRetry ai request)) <= 3000)%Z.
Proof.
  unfold callGeminiWithRetry.
  destruct (retryFrom_delay request (Z.to_nat maxRetries) 1 ltac:(lia)) as [H|H].
  - change (2 ^ (1 - 1))%Z with 1%Z in H. lia.
  - rewrite H. lia.
Qed.

End Operations.

Section OperationRuns.

Variable ai : Remote.

Lemma bind_lift_returned {A B} (a : A) (k : A -> Async B) :
  bind (lift (Returned a)) k = k a.
Proof. unfold bind, lift. now destruct (k a). Qed.

Lemma removeAccessories_run (imageDataUrl : string) :
  removeAccessories ai imageDataUrl
  = match matchDataUrl imageDataUrl with
    | None => (Threw invalidFormat, [])
    | Some (mime, payload) => callAndDecode ai (accessoriesRequest mime payload)
    end.
Proof.
  unfold removeAccessories, fileToGenerativePart.
  destruct (matchDataUrl imageDataUrl) as [[mime payload]|]; [|reflexivity].
  rewrite bind_lift_returned. apply call_then_decode.
Qed.

Lemma isolateOutfit_run (imageDataUrl : string) :
  isolateOutfit ai imageDataUrl
  = match matchDataUrl imageDataUrl with
    | None => (Threw invalidFormat, [])
    | Some (mime, payload) => callAndDecode ai (outfitRequest mime payload)
    end.
Proof.
  unfold isolateOutfit, fileToGenerativePart.
  destruct (matchDataUrl imageDataUrl) as [[mime payload]|]; [|reflexivity].
  rewrite bind_lift_returned. apply call_then_decode.
Qed.

Lemma dressModel_run (modelImageUrl outfitImageUrl : string) :
  dressModel ai modelImageUrl outfitImageUrl
  = match matchDataUrl modelImageUrl, matchDataUrl outfitImageUrl with
    | Some (mm, pm), Some (mo, po) => callAndDecode ai (fusionRequest mm pm mo po)
    | _, _ => (Threw invalidFormat, [])
    end.
Proof.
  unfold dressModel, fileToGenerativePart.
  destruct (matchDataUrl modelImageUrl) as [[mm pm]|]; [|reflexivity].
  rewrite bind_lift_returned.
  destruct (matchDataUrl outfitImageUrl) as [[mo po]|]; [|reflexivity].
  rewrite bind_lift_returned. apply call_then_decode.
Qed.




Lemma callAndDecode_bounds (request : GenerateContentParameters) :
  (attempts (snd (callAndDecode ai request)) <= 3)%nat /\
  (0 <= totalDelay (snd (callAndDecode ai request)) <= 3000)%Z /\
  Forall (eq request) (requestsSent (snd (callAndDecode ai request))).
Proof.
  unfold callAndDecode. simpl. repeat split.
  - apply (retryFrom_attempts ai request 3 1).
  - apply call_delay.
  - apply call_delay.
  - apply retryFrom_requests.
Qed.

(** The run of an operation whose [n]-th attempt is the first not to
    fail transiently, and returns a response. *)
Lemma callAndDecode_returned (request : GenerateContentParameters) (n : Z)
    (response : Response.t) :
  (1 <= n <= 3)%Z -> failsTransiently ai request (n - 1) ->
  ai n request = Returned response ->
  callAndDecode ai request
  = (processGeminiResponse response,
     (backoff request (n - 1) ++ [GenerateContent n request])%list).
Proof.
  intros Hn Hfail Hr. unfold callAndDecode.
  rewrite (run_with_last_attempt ai request n Hn Hfail).
  now rewrite (retryFrom_returned ai request _ _ _ Hr).
Qed.

End OperationRuns.

Section OperationProperties.

Lemma encoded_iff_matched (url mime payload : string) :
  fileToGenerativePart url = Returned (imagePart mime payload) <->
  matchDataUrl url = Some (mime, payload).
Proof.
  unfold fileToGenerativePart, imagePart.
  destruct (matchDataUrl url) as [[m p]|]; split; congruence.
Qed.

(** The result of an operation is the decoding of the first response the
    remote returns: when the image references are well formed, attempts
    [1 .. n - 1] fail transiently and attempt [n] returns a response, the
    operation settles as [processGeminiResponse] of that response, after
    the [n - 1] waits and with attempt [n] as its last effect.  A response
    without an image is thus an error at once: it is not tried again. *)
Theorem operation_decodes_first_response (ai : Remote) (n : Z)
    (response : Response.t) :
  (1 <= n <= 3)%Z ->
  (forall url mime payload,
     fileToGenerativePart url = Returned (imagePart mime payload) ->
     failsTransiently ai (accessoriesRequest mime payload) (n - 1) ->
     ai n (accessoriesRequest mime payload) = Returned response ->
     removeAccessories ai url
     = (processGeminiResponse response,
        (backoff (accessoriesRequest mime payload) (n - 1) ++
         [GenerateContent n (accessoriesRequest mime payload)])%list)) /\
  (forall url mime payload,
     fileToGenerativePart url = Returned (imagePart mime payload) ->
     failsTransiently ai (outfitRequest mime payload) (n - 1) ->
     ai n (outfitRequest mime payload) = Returned response ->
     isolateOutfit ai url
     = (processGeminiResponse response,
        (backoff (outfitRequest mime payload) (n - 1) ++
         [GenerateContent n (outfitRequest mime payload)])%list)) /\
  (forall modelUrl outfitUrl mm pm mo po,
     fileToGenerativePart modelUrl = Returned (imagePart mm pm) ->
     fileToGenerativePart outfitUrl = Returned (imagePart mo po) ->
     failsTransiently ai (fusionRequest mm pm mo po) (n - 1) ->
     ai n (fusionRequest mm pm mo po) = Returned response ->
     dressModel ai modelUrl outfitUrl
     = (processGeminiResponse response,
        (backoff (fusionRequest mm pm mo po) (n - 1) ++
         [GenerateContent n (fusionRequest mm pm mo po)])%list)).
Proof.
  intros Hn. split; [|split].
  - intros url mime payload Hurl Hfail Hr. apply encoded_iff_matched in Hurl.
    rewrite removeAccessories_run, Hurl. now apply callAndDecode_returned.
  - intros url mime payload Hurl Hfail Hr. apply encoded_iff_matched in Hurl.
    rewrite isolateOutfit_run, Hurl. now apply callAndDecode_returned.
  - intros modelUrl outfitUrl mm pm mo po Hm Ho Hfail Hr.
    apply encoded_iff_matched in Hm, Ho.
    rewrite dressModel_run, Hm, Ho. now apply callAndDecode_returned.
Qed.

(** A remote that answers [503] once and then declines in words: the
    operation fails with the words after two attempts and one wait. *)
Lemma operation_decodes_first_response_witness :
  let declined := Response.mk None (Some "I cannot edit this photo.") in
  let ai : Remote := fun attempt _ =>
    if (attempt <? 2)%Z then Threw (ErrorObj "503 Service Unavailable")
    else Returned declined in
  let request := accessoriesRequest "image/png" "AAAA" in
  removeAccessories ai "data:image/png;base64,AAAA"
  = (Threw (ErrorObj
       ("The AI model responded with text instead of an image: " ++ dquote ++
        "I cannot edit this photo." ++ dquote)),
     [GenerateContent 1 request; SetTimeout 1000; GenerateContent 2 request]).
Proof.
  intros declined ai request.
  apply (proj1 (operation_decodes_first_response ai 2 declined ltac:(lia))
           "data:image/png;base64,AAAA" "image/png" "AAAA").
  - reflexivity.
  - intros i Hi. exists (ErrorObj "503 Service Unavailable").
    assert (i = 1)%Z as -> by lia. split; reflexivity.
  - reflexivity.
Defined.

(** Every request an operation sends goes to the image edit model and
    holds the decomposed input images in the order of the arguments (for
    the fusion: the model, then the outfit), followed by the prompt of the
    operation. *)
Theorem operations_send_inputs_then_prompt (ai : Remote)
    (request : GenerateContentParameters) :
  (forall url,
     In request (requestsSent (snd (removeAccessories ai url))) ->
     exists mime payload,
       fileToGenerativePart url = Returned (imagePart mime payload) /\
       request = mkRequest imageEditModel
                   [imagePart mime payload; textPart removeAccessoriesPrompt]) /\
  (forall url,
     In request (requestsSent (snd (isolateOutfit ai url))) ->
     exists mime payload,
       fileToGenerativePart url = Returned (imagePart mime payload) /\
       request = mkRequest imageEditModel
                   [imagePart mime payload; textPart isolateOutfitPrompt]) /\
  (forall modelUrl outfitUrl,
     In request (requestsSent (snd (dressModel ai modelUrl outfitUrl))) ->
     exists mm pm mo po,
       fileToGenerativePart modelUrl = Returned (imagePart mm pm) /\
       fileToGenerativePart outfitUrl = Returned (imagePart mo po) /\
       request = mkRequest imageEditModel
                   [imagePart mm pm; imagePart mo po;
                    textPart dressModelPrompt]).
Proof.
  split; [|split].
  - intros url. rewrite removeAccessories_run.
    destruct (matchDataUrl url) as [[mime payload]|] eqn:Hm; [|intros []].
    intros Hin. exists mime, payload. split; [now apply encoded_iff_matched|].
    destruct (callAndDecode_bounds ai (accessoriesRequest mime payload))
      as (_ & _ & Hall).
    rewrite Forall_forall in Hall. symmetry. now apply Hall.
  - intros url. rewrite isolateOutfit_run.
    destruct (matchDataUrl url) as [[mime payload]|] eqn:Hm; [|intros []].
    intros Hin. exists mime, payload. split; [now apply encoded_iff_matched|].
    destruct (callAndDecode_bounds ai (outfitRequest mime payload))
      as (_ & _ & Hall).
    rewrite Forall_forall in Hall. symmetry. now apply Hall.
  - intros modelUrl outfitUrl. rewrite dressModel_run.
    destruct (matchDataUrl modelUrl) as [[mm pm]|] eqn:Hm; [|intros []].
    destruct (matchDataUrl outfitUrl) as [[mo po]|] eqn:Ho; [|intros []].
    intros Hin. exists mm, pm, mo, po.
    split; [now apply encoded_iff_matched|].
    split; [now apply encoded_iff_matched|].
    destruct (callAndDecode_bounds ai (fusionRequest mm pm mo po))
      as (_ & _ & Hall).
    rewrite Forall_forall in Hall. symmetry. now apply Hall.
Qed.

Lemma operations_send_inputs_then_prompt_witness :
  let ai : Remote := fun _ _ => Returned (Response.mk None None) in
  let request :=
    mkRequest imageEditModel
      [imagePart "image/png" "AAAA"; imagePart "image/jpeg" "BBBB";
       textPart dressModelPrompt] in
  exists mm pm mo po,
    fileToGenerativePart "data:image/png;base64,AAAA"
    = Returned (imagePart mm pm) /\
    fileToGenerativePart "data:image/jpeg;base64,BBBB"
    = Returned (imagePart mo po) /\
    request = mkRequest imageEditModel
                [imagePart mm pm; imagePart mo po; textPart dressModelPrompt].
Proof.
  intros ai request.
  apply (proj2 (proj2 (operations_send_inputs_then_prompt ai request))
           "data:image/png;base64,AAAA" "data:image/jpeg;base64,BBBB").
  simpl. left. reflexivity.
Defined.

(** Whatever the remote does, an operation makes at most 3 calls and
    waits at most 3000 ms in all between them. *)
Theorem operations_bounded (ai : Remote) (url other : string) :
  let bounded (trace : list Effect) :=
    (attempts trace <= 3)%nat /\ (0 <= totalDelay trace <= 3000)%Z in
  bounded (snd (removeAccessories ai url)) /\
  bounded (snd (isolateOutfit ai url)) /\
  bounded (snd (dressModel ai url other)).
Proof.
  intros bounded. unfold bounded.
  rewrite removeAccessories_run, isolateOutfit_run, dressModel_run.
  assert (Hnone : (attempts [] <= 3)%nat /\ (0 <= totalDelay [] <= 3000)%Z)
    by (simpl; split; [unfold attempts; simpl|]; lia).
  destruct (matchDataUrl url) as [[mime payload]|];
    destruct (matchDataUrl other) as [[mo po]|];
    repeat split;
    try apply Hnone;
    try apply (callAndDecode_bounds ai (accessoriesRequest mime payload));
    try apply (callAndDecode_bounds ai (outfitRequest mime payload));
    try apply (callAndDecode_bounds ai (fusionRequest mime payload mo po)).
Qed.



End OperationProperties.

(** ** What every page keeps *)

Section PageInvariants.

Lemma decoded_is_data_url (response : Response.t) (url : string) :
  processGeminiResponse response = Returned url ->
  exists rest, url = "data:" ++ rest.
Proof.
  unfold processGeminiResponse.
  destruct (firstInlineImage (firstCandidateParts response)) as [u|] eqn:H;
    [|discriminate].
  intros [= <-]. induction (firstCandidateParts response) as [|part ps IH];
    simpl in H; [discriminate|].
  destruct (Part.inlineData part) as [blob|]; [|now apply IH].
  injection H as <-. now eexists.
Qed.

Lemma callAndDecode_brings_image (ai : Remote)
    (request : GenerateContentParameters) (url : string) :
  fst (callAndDecode ai request) = Returned url -> url <> "".
Proof.
  unfold callAndDecode. simpl.
  destruct (fst (callGeminiWithRetry ai request)) as [response|e];
    [|discriminate].
  intros H. apply decoded_is_data_url in H as [rest ->]. discriminate.
Qed.

Lemma choose_brings_image (ai : Remote) (k : Z) (s : State) (call : Pending) :
  choose ai k s = Some call -> bringsImage call.
Proof.
  unfold choose, bringsImage.
  destruct ((k =? 1)%Z && truthy (originalImage (step1 s))).
  { intros [= <-] url. simpl. rewrite removeAccessories_run.
    destruct (matchDataUrl _) as [[m q]|]; [|discriminate].
    apply callAndDecode_brings_image. }
  destruct ((k =? 2)%Z && truthy (originalImage (step2 s))).
  { intros [= <-] url. simpl. rewrite isolateOutfit_run.
    destruct (matchDataUrl _) as [[m q]|]; [|discriminate].
    apply callAndDecode_brings_image. }
  destruct ((k =? 3)%Z && truthy (processedImage (step1 s))
            && truthy (processedImage (step2 s))); [|discriminate].
  intros [= <-] url. simpl. rewrite dressModel_run.
  destruct (matchDataUrl _) as [[mm pm]|]; [|discriminate].
  destruct (matchDataUrl _) as [[mo po]|]; [|discriminate].
  apply callAndDecode_brings_image.
Qed.

Lemma coherent_initial : coherent initialStepState.
Proof. reflexivity. Qed.

Lemma coherent_uploadedWith (image : option string) :
  coherent (uploadedWith image).
Proof. repeat split. Qed.

Lemma coherent_markProcessing (prev : StepState) : coherent (markProcessing prev).
Proof. reflexivity. Qed.

Lemma coherent_markError (message : string) (prev : StepState) :
  coherent (markError message prev).
Proof. now exists message. Qed.

Lemma coherent_markDone (url : string) (prev : StepState) :
  url <> "" -> coherent (markDone url prev).
Proof. intros H. now exists url. Qed.

Lemma coherent_markApproved (prev : StepState) :
  status prev = Done -> coherent prev -> coherent (markApproved prev).
Proof. unfold coherent. simpl. intros ->. trivial. Qed.

Lemma coherent_update (u : Updater) (f : StepState -> StepState) (s : State) :
  (forall card, coherent (cardState card s)) ->
  (forall prev, coherent prev -> coherent (f prev)) ->
  forall card, coherent (cardState card (update u f s)).
Proof.
  intros Hs Hf card.
  destruct u, card; simpl; try apply Hf;
    first [apply (Hs Card1) | apply (Hs Card2) | apply (Hs Card3)].
Qed.

Lemma coherent_cards (s : State) :
  coherent (step1 s) -> coherent (step2 s) -> coherent (step3 s) ->
  forall card, coherent (cardState card s).
Proof. intros H1 H2 H3 [| |]; assumption. Qed.

Lemma in_dropNth {A} (n : nat) (l : list A) (a : A) :
  In a (dropNth n l) -> In a l.
Proof.
  revert n; induction l as [|b l IH]; intros [|n]; simpl; auto.
  intros [->|H]; [now left | right; eauto].
Qed.

Lemma sound_launch (p : Page) (ai : Remote) (k : Z) :
  sound p -> sound (launch p (startProcess ai k (view p))).
Proof.
  intros [Hv Hi]. unfold startProcess.
  destruct (choose ai k (view p)) as [call|] eqn:Hc; simpl; [|now split].
  split; simpl.
  - apply coherent_update; [exact Hv|].
    intros prev _. apply coherent_markProcessing.
  - intros c Hin. apply in_app_or in Hin as [Hin|[<-|[]]]; [now apply Hi|].
    eapply choose_brings_image, Hc.
Qed.

Ltac step_coherent Hv :=
  first [ apply coherent_initial | apply coherent_uploadedWith
        | apply (Hv Card1) | apply (Hv Card2) | apply (Hv Card3) ].

(** Every event leaves a sound page sound. *)
Lemma react_sound (e : Event) (p : Page) : sound p -> sound (react e p).
Proof.
  intros Hp. unfold react.
  destruct (offered e (view p)) eqn:Hoff; [|exact Hp].
  pose proof Hp as [Hv Hi].
  destruct e as [c files|c ai|c ai|c|c|n]; simpl.
  - split; [|exact Hi]. simpl. unfold handleImageUpload.
    destruct files as [|imageUrl others]; [exact Hv|].
    destruct c; simpl; apply coherent_cards; simpl; step_coherent Hv.
  - now apply sound_launch.
  - unfold startRetry. destruct c; simpl.
    + split; [|exact Hi]. simpl. apply coherent_cards; simpl; step_coherent Hv.
    + split; [|exact Hi]. simpl. apply coherent_cards; simpl; step_coherent Hv.
    + now apply (sound_launch p ai 3).
  - split; [|exact Hi]. simpl.
    unfold offered in Hoff. simpl in Hoff.
    apply andb_true_iff in Hoff as [Hdone _]. apply statusIs_eq in Hdone.
    destruct c; simpl.
    + apply coherent_cards; simpl;
        [apply coherent_markApproved; [exact Hdone | apply (Hv Card1)]
        | apply (Hv Card2) | apply (Hv Card3)].
    + apply coherent_cards; simpl;
        [apply (Hv Card1)
        | apply coherent_markApproved; [exact Hdone | apply (Hv Card2)]
        | apply (Hv Card3)].
    + unfold handleSaveToAlbum.
      destruct (negb (truthy (processedImage (step3 (view p))))); [exact Hv|].
      apply coherent_cards; simpl; step_coherent Hv.
  - exact Hp.
  - destruct (nth_error (inflight p) n) as [call|] eqn:Hn; [|exact Hp].
    split; simpl.
    + unfold settle. destruct (fst (apiCall call)) as [url|err] eqn:Hr.
      * apply coherent_update; [exact Hv|]. intros prev _.
        apply coherent_markDone. apply (Hi call); [|exact Hr].
        eapply nth_error_In, Hn.
      * apply coherent_update; [exact Hv|]. intros prev _.
        apply coherent_markError.
    + intros c Hin. apply Hi. eapply in_dropNth, Hin.
Qed.

Lemma sound_initial : sound initialPage.
Proof. split; [intros [| |]; reflexivity | intros call []]. Qed.

Lemma after_sound (events : list Event) (p : Page) :
  sound p -> sound (after events p).
Proof.
  unfold after. revert p; induction events as [|e events IH]; intros p Hp;
    simpl; [exact Hp|].
  apply IH, react_sound, Hp.
Qed.

End PageInvariants.

Section PageProperties.

Lemma successful_call_frame (call : Pending) (s : State) (url : string) :
  fst (apiCall call) = Returned url ->
  settle call (update (updater call) markProcessing s)
  = update (updater call)
      (fun prev =>
         {| status := Done; originalImage := originalImage prev;
            processedImage := Some url; error := None;
            approved := approved prev |}) s.
Proof.
  intros H. unfold settle. rewrite H. destruct (updater call); reflexivity.
Qed.

(** When [handleProcess] passes its guard and the call it makes succeeds,
    the step ends with status [done], the result as processed image and no
    error (the error of an earlier failure is gone), its original image
    and its approval being what they were; the other two steps and the
    album are unchanged. *)
Theorem successful_process_stores_result (ai : Remote) (s : State)
    (url : string) :
  let succeeded (prev : StepState) :=
    {| status := Done; originalImage := originalImage prev;
       processedImage := Some url; error := None;
       approved := approved prev |} in
  (forall image,
     originalImage (step1 s) = Some image -> image <> "" ->
     fst (removeAccessories ai image) = Returned url ->
     fst (handleProcess ai 1 s)
     = {| step1 := succeeded (step1 s); step2 := step2 s; step3 := step3 s;
          album := album s |}) /\
  (forall image,
     originalImage (step2 s) = Some image -> image <> "" ->
     fst (isolateOutfit ai image) = Returned url ->
     fst (handleProcess ai 2 s)
     = {| step1 := step1 s; step2 := succeeded (step2 s); step3 := step3 s;
          album := album s |}) /\
  (forall model outfit,
     processedImage (step1 s) = Some model -> model <> "" ->
     processedImage (step2 s) = Some outfit -> outfit <> "" ->
     fst (dressModel ai model outfit) = Returned url ->
     fst (handleProcess ai 3 s)
     = {| step1 := step1 s; step2 := step2 s; step3 := succeeded (step3 s);
          album := album s |}).
Proof.
  intros succeeded. unfold handleProcess, startProcess, choose.
  split; [|split].
  - intros image H Hne Hcall.
    assert (T : truthy (originalImage (step1 s)) = true)
      by (apply truthy_nonEmpty; now exists image).
    simpl. rewrite T, H. simpl.
    now rewrite successful_call_frame with (url := url).
  - intros image H Hne Hcall.
    assert (T : truthy (originalImage (step2 s)) = true)
      by (apply truthy_nonEmpty; now exists image).
    simpl. rewrite T, H. simpl.
    now rewrite successful_call_frame with (url := url).
  - intros model outfit H1 Hne1 H2 Hne2 Hcall.
    assert (T1 : truthy (processedImage (step1 s)) = true)
      by (apply truthy_nonEmpty; now exists model).
    assert (T2 : truthy (processedImage (step2 s)) = true)
      by (apply truthy_nonEmpty; now exists outfit).
    simpl. rewrite T1, T2, H1, H2. simpl.
    now rewrite successful_call_frame with (url := url).
Qed.

(** A step 1 in error from an earlier failure, processed again with
    success: the result is stored and the error is gone. *)
Lemma successful_process_stores_result_witness :
  let image := "data:image/png;base64,AAAA" in
  let ai : Remote := fun _ _ =>
    Returned (Response.mk
      (Some [mkCandidate (Some (mkContent (Some [imagePart "image/png" "BBBB"])))])
      None) in
  let s :=
    {| step1 := {| status := Error; originalImage := Some image;
                   processedImage := None; error := Some "503";
                   approved := false |};
       step2 := initialStepState; step3 := initialStepState; album := [] |} in
  fst (handleProcess ai 1 s)
  = {| step1 := {| status := Done; originalImage := Some image;
                   processedImage := Some "data:image/png;base64,BBBB";
                   error := None; approved := false |};
       step2 := initialStepState; step3 := initialStepState; album := [] |}.
Proof.
  intros image ai s.
  apply (proj1 (successful_process_stores_result ai s
                  "data:image/png;base64,BBBB") image).
  - reflexivity.
  - discriminate.
  - reflexivity.
Defined.

(** On every page that events lead to from the initial one, the status
    of a step tells about its other fields: an idle step is the initial
    step state; an uploaded step has no processed image, no error and no
    approval; a processing step has no error; a done step has a non-empty
    processed image; a step in error has an error message. *)
Theorem status_tells_fields (events : list Event) (card : Card) :
  let state := cardState card (view (after events initialPage)) in
  (status state = Idle -> state = initialStepState) /\
  (status state = Uploaded ->
   processedImage state = None /\ error state = None /\
   approved state = false) /\
  (status state = Processing -> error state = None) /\
  (status state = Done -> nonEmpty (processedImage state)) /\
  (status state = Error -> exists message, error state = Some message).
Proof.
  intros state.
  destruct (after_sound events initialPage sound_initial) as [Hv _].
  specialize (Hv card). fold state in Hv. unfold coherent in Hv.
  repeat apply conj; intros Hs; rewrite Hs in Hv; exact Hv.
Qed.



(** On every such page a card never shows the original and the processed
    image together, and the card of a done step shows its processed
    image. *)
Theorem card_shows_one_image (events : list Event) (card : Card) :
  let state := cardState card (view (after events initialPage)) in
  showOriginal state && showProcessed state = false /\
  (status state = Done -> showProcessed state = true).
Proof.
  intros state.
  destruct (after_sound events initialPage sound_initial) as [Hv _].
  specialize (Hv card). fold state in Hv. unfold coherent in Hv.
  unfold showOriginal, showProcessed.
  destruct (status state) eqn:Hs; simpl; split; try reflexivity;
    try discriminate.
  - destruct Hv as (Hp & _). rewrite Hp. simpl.
    now rewrite !andb_false_r.
  - intros _. apply truthy_nonEmpty. exact Hv.
Qed.

Lemma card_shows_one_image_witness :
  let ai : Remote := fun _ _ =>
    Returned (Response.mk
      (Some [mkCandidate (Some (mkContent (Some [imagePart "image/png" "BBBB"])))])
      None) in
  let events :=
    [ChooseFiles Card1 ["data:image/png;base64,AAAA"]; ClickProcess Card1 ai;
     Settles 0] in
  showProcessed (cardState Card1 (view (after events initialPage))) = true.
Proof.
  intros ai events.
  apply (proj2 (card_shows_one_image events Card1)). reflexivity.
Defined.

End PageProperties.

Section Races.







(** A reset does not cancel a call in flight.  When step 1 is done and
    is retried, steps 2 and 3 are reset; a fusion call still in flight
    then settles into the reset step 3, which ends done with the result
    made from the images that were discarded, while step 1 has no
    processed image and step 2 is idle again. *)
Theorem reset_does_not_cancel_call (p : Page) (ai : Remote) (n : nat)
    (call : Pending) (url : string) :
  status (step1 (view p)) = Done ->
  nth_error (inflight p) n = Some call ->
  updater call = SetStep3 ->
  fst (apiCall call) = Returned url ->
  let q := react (Settles n) (react (ClickRetry Card1 ai) p) in
  step1 (view q)
  = {| status := Uploaded; originalImage := originalImage (step1 (view p));
       processedImage := None; error := None; approved := false |} /\
  step2 (view q) = initialStepState /\
  step3 (view q)
  = {| status := Done; originalImage := None; processedImage := Some url;
       error := None; approved := false |}.
Proof.
  intros Hdone Hn Hu Hr q. unfold q, react.
  assert (Hoff : offered (ClickRetry Card1 ai) (view p) = true)
    by (unfold offered; simpl; now rewrite Hdone).
  rewrite Hoff. simpl. rewrite Hn. unfold settle. rewrite Hr, Hu.
  repeat split.
Qed.

(** The race on a page: both inputs prepared and approved, the fusion
    started, then step 1 retried before the fusion settles. *)
Lemma reset_does_not_cancel_call_witness :
  let answer (payload : string) : Remote := fun _ _ =>
    Returned (Response.mk
      (Some [mkCandidate (Some (mkContent (Some [imagePart "image/png" payload])))])
      None) in
  let p :=
    after [ChooseFiles Card1 ["data:image/png;base64,AAAA"];
           ClickProcess Card1 (answer "MMMM"); Settles 0; ClickApprove Card1;
           ChooseFiles Card2 ["data:image/png;base64,BBBB"];
           ClickProcess Card2 (answer "OOOO"); Settles 0; ClickApprove Card2;
           ClickProcess Card3 (answer "FFFF")] initialPage in
  let q := react (Settles 0) (react (ClickRetry Card1 (answer "MMMM")) p) in
  status (step1 (view q)) = Uploaded /\
  step2 (view q) = initialStepState /\
  step3 (view q)
  = {| status := Done; originalImage := None;
       processedImage := Some "data:image/png;base64,FFFF";
       error := None; approved := false |}.
Proof.
  intros answer p q.
  destruct (reset_does_not_cancel_call p (answer "MMMM") 0
              (mkPending SetStep3
                 (dressModel (answer "FFFF") "data:image/png;base64,MMMM"
                    "data:image/png;base64,OOOO"))
              "data:image/png;base64,FFFF")
    as (H1 & H2 & H3); try reflexivity.
  fold q in H1, H2, H3. split; [now rewrite H1 | split; assumption].
Defined.

End Races.

(** ** Rows of the album page *)

Section Rows.

Import AlbumUtils.

Local Open Scope float_scope.

(** One more row above adds the height of that row's first image and
    one padding to what the rows before it gave. *)
Lemma addRowsAbove_one_more (loadedImages : list HTMLImageElement)
    (n i : nat) (yOffset : float) :
  addRowsAbove loadedImages (S n) i yOffset
  = match addRowsAbove loadedImages n i yOffset with
    | None => None
    | Some above =>
        match nth_error loadedImages ((i + n) * grid.cols) with
        | None => None
        | Some leftImg =>
            Some (above + (cellWidth / (naturalWidth leftImg / naturalHeight leftImg)
                           + grid.padding))
        end
    end.
Proof.
  revert i yOffset; induction n as [|n IH]; intros i yOffset.
  - simpl. rewrite Nat.add_0_r.
    now destruct (nth_error loadedImages (i * grid.cols)).
  - change (addRowsAbove loadedImages (S (S n)) i yOffset)
      with (match nth_error loadedImages (i * grid.cols) with
            | None => None
            | Some prevImg =>
                addRowsAbove loadedImages (S n) (S i)
                  (yOffset + (cellWidth / (naturalWidth prevImg / naturalHeight prevImg)
                              + grid.padding))
            end).
    change (addRowsAbove loadedImages (S n) i yOffset)
      with (match nth_error loadedImages (i * grid.cols) with
            | None => None
            | Some prevImg =>
                addRowsAbove loadedImages n (S i)
                  (yOffset + (cellWidth / (naturalWidth prevImg / naturalHeight prevImg)
                              + grid.padding))
            end).
    destruct (nth_error loadedImages (i * grid.cols)) as [prevImg|];
      [|reflexivity].
    rewrite IH. now replace (S i + n)%nat with (i + S n)%nat by lia.
Qed.

Lemma addRowsAbove_same_left (l l' : list HTMLImageElement)
    (n i : nat) (yOffset : float) :
  (forall k, nth_error l (k * grid.cols) = nth_error l' (k * grid.cols)) ->
  addRowsAbove l n i yOffset = addRowsAbove l' n i yOffset.
Proof.
  intros Hleft. revert i yOffset; induction n as [|n IH]; intros i yOffset;
    simpl; [reflexivity|].
  rewrite (Hleft i).
  destruct (nth_error l' (i * grid.cols)) as [prevImg|]; [apply IH | reflexivity].
Qed.

(** The rows stack by their left images.  The two images of a row are
    drawn at the same [y]; and the image two places further, in the next
    row, is drawn lower by the scaled height of the left image of this row
    plus one padding, whatever the height of the right image. *)
Theorem rows_stack_by_left_image (loadedImages : list HTMLImageElement)
    (k : nat) :
  (2 * k + 2 < List.length loadedImages)%nat ->
  exists leftImg r0 r1 r2,
    nth_error loadedImages (2 * k) = Some leftImg /\
    placeAt loadedImages (2 * k) = Some r0 /\
    placeAt loadedImages (2 * k + 1) = Some r1 /\
    placeAt loadedImages (2 * k + 2) = Some r2 /\
    y r1 = y r0 /\
    y r2 = y r0 + (cellWidth / (naturalWidth leftImg / naturalHeight leftImg) + 80).
Proof.
  intros Hlen.
  destruct (nth_error loadedImages (2 * k)) as [leftImg|] eqn:H0;
    [|apply nth_error_None in H0; lia].
  destruct (nth_error loadedImages (2 * k + 1)) as [right|] eqn:H1;
    [|apply nth_error_None in H1; lia].
  destruct (nth_error loadedImages (2 * k + 2)) as [next|] eqn:H2;
    [|apply nth_error_None in H2; lia].
  destruct (addRowsAbove_defined loadedImages k 0 (contentTopMargin + grid.padding))
    as [above Habove]; [unfold grid.cols; lia|].
  assert (D0 : (2 * k / grid.cols = k)%nat)
    by (unfold grid.cols; rewrite Nat.mul_comm; apply Nat.div_mul; lia).
  assert (D1 : ((2 * k + 1) / grid.cols = k)%nat).
  { unfold grid.cols. rewrite (Nat.mul_comm 2 k), Nat.add_comm.
    rewrite Nat.div_add by lia. reflexivity. }
  assert (D2 : ((2 * k + 2) / grid.cols = S k)%nat).
  { unfold grid.cols. replace (2 * k + 2)%nat with ((k + 1) * 2)%nat by lia.
    rewrite Nat.div_mul by lia. lia. }
  unfold placeAt, place. rewrite H0, H1, H2, D0, D1, D2.
  rewrite addRowsAbove_one_more, Habove. simpl Nat.add.
  replace (k * grid.cols)%nat with (2 * k)%nat by (unfold grid.cols; lia).
  rewrite H0.
  exists leftImg. eexists. eexists. eexists.
  repeat split.
Qed.

Lemma rows_stack_by_left_image_witness :
  let tall := mkImage 1000 2000 in
  let wide := mkImage 2000 1000 in
  exists leftImg r0 r1 r2,
    nth_error [wide; tall; wide] 0 = Some leftImg /\
    placeAt [wide; tall; wide] 0 = Some r0 /\
    placeAt [wide; tall; wide] 1 = Some r1 /\
    placeAt [wide; tall; wide] 2 = Some r2 /\
    y r1 = y r0 /\
    y r2 = y r0 + (cellWidth / (naturalWidth leftImg / naturalHeight leftImg) + 80).
Proof.
  intros tall wide.
  apply (rows_stack_by_left_image [wide; tall; wide] 0). simpl. lia.
Defined.

(** The right column does not shape the rows: two lists of images that
    agree on their left-column images (the even indices) give every index
    the same [x] and the same [y]. *)
Theorem right_column_does_not_shape_rows (l l' : list HTMLImageElement)
    (i : nat) (r r' : Rect) :
  (forall k, nth_error l (2 * k) = nth_error l' (2 * k)) ->
  placeAt l i = Some r -> placeAt l' i = Some r' ->
  x r = x r' /\ y r = y r' /\ drawWidth r = drawWidth r'.
Proof.
  intros Hleft. unfold placeAt, place.
  destruct (nth_error l i) as [img|]; [|discriminate].
  destruct (nth_error l' i) as [img'|]; [|discriminate].
  rewrite (addRowsAbove_same_left l l')
    by (intros k; unfold grid.cols; rewrite Nat.mul_comm; apply Hleft).
  destruct (addRowsAbove l' (i / grid.cols) 0 _); [|discriminate].
  intros [= <-] [= <-]. repeat split.
Qed.

Lemma right_column_does_not_shape_rows_witness :
  let tall := mkImage 1000 2000 in
  let wide := mkImage 2000 1000 in
  exists r r',
    placeAt [wide; tall; wide] 2 = Some r /\
    placeAt [wide; wide; wide] 2 = Some r' /\
    y r = y r'.
Proof.
  intros tall wide. eexists. eexists.
  split; [reflexivity|]. split; [reflexivity|].
  refine (proj1 (proj2 (right_column_does_not_shape_rows
            [wide; tall; wide] [wide; wide; wide] 2 _ _ _ eq_refl eq_refl))).
  intros [|[|k]]; reflexivity.
Defined.

End Rows.

(** ** The album page: loading, drawing, downloading *)

Section AlbumPageRun.

Import AlbumUtils.

Variable b : Browser.

Lemma collect_loaded (images : list string) (loaded : list HTMLImageElement) :
  map (imageOf b) images = map Some loaded ->
  collect (map (loadImage b) images) = Returned loaded.
Proof.
  revert loaded; induction images as [|src images IH]; intros [|img loaded] H;
    try discriminate H; [reflexivity|].
  simpl in H. injection H as Hsrc Hrest. simpl. unfold loadImage at 1.
  now rewrite Hsrc, (IH _ Hrest).
Qed.

Lemma collect_failure (images : list string) (src : string) :
  In src images -> imageOf b src = None ->
  exists failing,
    In failing images /\ imageOf b failing = None /\
    collect (map (loadImage b) images) = Threw (loadError failing).
Proof.
  induction images as [|first images IH]; intros Hin Hnone; [contradiction|].
  simpl. unfold loadImage at 1.
  destruct (imageOf b first) as [img|] eqn:Hfirst.
  - destruct Hin as [->|Hin]; [congruence|].
    destruct (IH Hin Hnone) as (failing & Hf & Hn & ->).
    exists failing. repeat split; [now right | exact Hn].
  - exists first. repeat split; [now left | exact Hfirst].
Qed.

Lemma promiseAll_failure (images : list string) (src : string) :
  In src images -> imageOf b src = None ->
  exists failing,
    In failing images /\ imageOf b failing = None /\
    promiseAll (earliestFailure b) (map (loadImage b) images)
    = Threw (loadError failing).
Proof.
  intros Hin Hnone. unfold promiseAll.
  destruct (collect_failure images src Hin Hnone) as (failing & Hf & Hn & ->).
  destruct (nth_error (map (loadImage b) images) (earliestFailure b))
    as [[img|e]|] eqn:Hnth; try (exists failing; now repeat split).
  apply nth_error_In, in_map_iff in Hnth as (winner & Hload & Hw).
  unfold loadImage in Hload.
  destruct (imageOf b winner) eqn:Himg; [discriminate|].
  injection Hload as <-. exists winner. now repeat split.
Qed.

Lemma drawInto_frames (img : HTMLImageElement) (r : Rect) (ctx : Context) :
  drawInto img r ctx
  = {| current := current ctx; saved := saved ctx;
       painted := (painted ctx ++ framed (current ctx) img r)%list |}.
Proof.
  unfold drawInto, restore, paint, setState, save, framed, bordered, shadowed.
  simpl. now rewrite <- app_assoc.
Qed.

(** The [forEach] draws the frame of every image and leaves the drawing
    state and the stack of saved states as it found them. *)
Lemma drawFrom_frames (loaded rest : list HTMLImageElement) (index : nat)
    (ctx : Context) :
  rest = skipn index loaded ->
  drawFrom loaded rest index ctx
  = Some {| current := current ctx; saved := saved ctx;
            painted :=
              (painted ctx ++ framesFrom (current ctx) loaded rest index)%list |}.
Proof.
  revert index ctx; induction rest as [|img rest IH]; intros index ctx Hrest.
  - simpl. rewrite app_nil_r. now destruct ctx.
  - assert (Hnth : nth_error loaded index = Some img).
    { rewrite <- (Nat.add_0_r index), <- nth_error_skipn, <- Hrest.
      reflexivity. }
    assert (Hlt : (index < List.length loaded)%nat)
      by (apply nth_error_Some; congruence).
    destruct (placeAt_defined loaded index Hlt) as [r Hr].
    simpl. rewrite Hr. unfold placeAt in Hr. rewrite Hnth in Hr. rewrite Hr.
    rewrite IH.
    + rewrite drawInto_frames. simpl. now rewrite <- app_assoc.
    + replace (S index) with (1 + index)%nat by reflexivity.
      rewrite <- skipn_skipn, <- Hrest. reflexivity.
Qed.

Lemma framesFrom_length (d : DrawingState)
    (loaded rest : list HTMLImageElement) (index : nat) :
  rest = skipn index loaded ->
  List.length (framesFrom d loaded rest index) = (2 * List.length rest)%nat.
Proof.
  revert index; induction rest as [|img rest IH]; intros index Hrest;
    [reflexivity|].
  assert (Hlt : (index < List.length loaded)%nat).
  { destruct (Nat.lt_ge_cases index (List.length loaded)) as [H|H]; [exact H|].
    rewrite skipn_all2 in Hrest by exact H. discriminate. }
  destruct (placeAt_defined loaded index Hlt) as [r Hr].
  simpl. rewrite Hr. simpl. rewrite IH; [lia|].
  replace (S index) with (1 + index)%nat by reflexivity.
  rewrite <- skipn_skipn, <- Hrest. reflexivity.
Qed.

Lemma substring_length_le (n m : nat) (s : string) :
  (String.length (substring n m s) <= m)%nat.
Proof.
  revert n m; induction s as [|c s IH]; intros [|n] [|m]; simpl;
    try lia; try apply IH.
  specialize (IH 0%nat m). lia.
Qed.

Lemma append_length (s t : string) :
  String.length (s ++ t) = (String.length s + String.length t)%nat.
Proof. induction s as [|c s IH]; simpl; [reflexivity | now rewrite IH]. Qed.

Lemma createAlbumPage_failures (images : list string) :
  (freshContext b = None -> createAlbumPage b images = Threw noContext) /\
  (forall src,
     freshContext b <> None -> In src images -> imageOf b src = None ->
     exists failing,
       In failing images /\ imageOf b failing = None /\
       createAlbumPage b images = Threw (loadError failing)).
Proof.
  split.
  - intros H. unfold createAlbumPage. now rewrite H.
  - intros src Hctx Hin Hnone. unfold createAlbumPage.
    destruct (freshContext b) as [fresh|]; [|contradiction].
    destruct (promiseAll_failure images src Hin Hnone)
      as (failing & Hf & Hn & ->).
    now exists failing.
Qed.

End AlbumPageRun.

(** The album page is all or nothing.  Without a 2D context
    [createAlbumPage] throws before it loads anything; with one, as soon
    as a single image of the list fails to load it rejects with the load
    error of an image that failed, and no page comes out.  The message of
    a load error quotes at most the first 60 characters of the source: it
    is never longer than 85 characters. *)
Theorem album_page_is_all_or_nothing (b : Browser) (images : list string) :
  (freshContext b = None -> createAlbumPage b images = Threw noContext) /\
  (forall src,
     freshContext b <> None -> In src images -> imageOf b src = None ->
     exists failing,
       In failing images /\ imageOf b failing = None /\
       createAlbumPage b images = Threw (loadError failing)) /\
  (forall src, (String.length (errorMessageOf (loadError src)) <= 85)%nat).
Proof.
  split; [|split].
  - apply createAlbumPage_failures.
  - apply createAlbumPage_failures.
  - intros src. unfold loadError, errorMessageOf.
    rewrite !append_length.
    pose proof (substring_length_le 0 60 src). simpl. lia.
Qed.

Lemma album_page_is_all_or_nothing_witness :
  let fresh :=
    mkDrawingState "#000000" "start" "10px sans-serif" "rgba(0, 0, 0, 0)"
      0 0 0 "#000000" 1 in
  let b :=
    mkBrowser (Some fresh)
      (fun src => if src =? "broken" then None
                  else Some (AlbumUtils.mkImage 1000 1500))
      0 (fun _ _ _ => "data:image/jpeg;base64,PAGE") in
  exists failing,
    In failing ["data:image/png;base64,AAAA"; "broken"] /\
    imageOf b failing = None /\
    createAlbumPage b ["data:image/png;base64,AAAA"; "broken"]
    = Threw (loadError failing).
Proof.
  intros fresh b.
  apply (proj1 (proj2 (album_page_is_all_or_nothing b
           ["data:image/png;base64,AAAA"; "broken"])) "broken").
  - discriminate.
  - simpl. auto.
  - reflexivity.
Defined.

(** What an album page is made of.  When the context is there and every
    image loads, [createAlbumPage] returns the JPEG encoding, at quality
    0.92, of these paints: the header (background and two lines of text),
    then for each image in order its frame: the image drawn into the
    rectangle of the layout under the drop shadow, and the outline of the
    same rectangle with the shadow off.  Every frame is painted from the
    drawing state the header left: what one image sets never reaches the
    next.  There are two paints for each image. *)
Theorem album_page_paints (b : Browser) (images : list string)
    (fresh : DrawingState) (loaded : list AlbumUtils.HTMLImageElement) :
  freshContext b = Some fresh ->
  map (imageOf b) images = map Some loaded ->
  createAlbumPage b images
  = Returned
      (toDataURL b
         (headerPaints fresh ++ framesFrom (headerState fresh) loaded loaded 0)
         "image/jpeg" jpegQuality) /\
  List.length (framesFrom (headerState fresh) loaded loaded 0)
  = (2 * List.length images)%nat.
Proof.
  intros Hctx Hload. split.
  - unfold createAlbumPage, promiseAll.
    rewrite Hctx, (collect_loaded b images loaded Hload).
    now rewrite drawFrom_frames by reflexivity.
  - rewrite framesFrom_length by reflexivity.
    apply (f_equal (@List.length _)) in Hload.
    rewrite !length_map in Hload. now rewrite Hload.
Qed.

Lemma album_page_paints_witness :
  let fresh :=
    mkDrawingState "#000000" "start" "10px sans-serif" "rgba(0, 0, 0, 0)"
      0 0 0 "#000000" 1 in
  let img := AlbumUtils.mkImage 1000 1500 in
  let b :=
    mkBrowser (Some fresh) (fun _ => Some img) 0
      (fun _ _ _ => "data:image/jpeg;base64,PAGE") in
  List.length (framesFrom (headerState fresh) [img; img; img] [img; img; img] 0)
  = 6%nat.
Proof.
  intros fresh img b.
  apply (proj2 (album_page_paints b ["a"; "b"; "c"] fresh [img; img; img]
                  eq_refl eq_refl)).
Defined.

(** The album download gives up quietly and always lets go of the
    button.  With an empty album [handleDownloadAlbum] does nothing.
    Otherwise the button is disabled while the page is made and the flag
    is false again at the end, with the workflow untouched, however the
    making ends: when it fails (no context, or an image of the album that
    does not load) nothing is downloaded and nothing is reported; when it
    returns a non-empty page, that page is downloaded as
    [mi_album_virtual.jpeg] through a link that is removed again. *)
Theorem album_download_outcomes (b : Browser) (sh : Shell) :
  let '(during, final, effects) := handleDownloadAlbum b sh in
  (album (workflow sh) = [] -> final = sh /\ effects = []) /\
  (album (workflow sh) <> [] ->
   albumButtonEnabled during = false /\
   final = {| workflow := workflow sh; isDownloadingAlbum := false |} /\
   (forall src,
      freshContext b = None \/
      (In src (album (workflow sh)) /\ imageOf b src = None) ->
      effects = []) /\
   (forall url,
      createAlbumPage b (album (workflow sh)) = Returned url -> url <> "" ->
      effects
      = [AppendChild (mkLink url "mi_album_virtual.jpeg");
         Click (mkLink url "mi_album_virtual.jpeg");
         RemoveChild (mkLink url "mi_album_virtual.jpeg")])).
Proof.
  unfold handleDownloadAlbum.
  destruct (album (workflow sh)) as [|first others] eqn:Halbum; simpl.
  - split; [now split | intros H; contradiction].
  - split; [discriminate|]. intros _.
    split; [unfold albumButtonEnabled; simpl; now rewrite andb_false_r|].
    split; [reflexivity|]. split.
    + intros src [Hctx | [Hin Hnone]].
      * now rewrite (proj1 (createAlbumPage_failures b (first :: others)) Hctx).
      * destruct (freshContext b) as [fresh|] eqn:Hctx.
        -- destruct (proj2 (createAlbumPage_failures b (first :: others))
                       src ltac:(congruence) Hin Hnone) as (failing & _ & _ & ->).
           reflexivity.
        -- now rewrite (proj1 (createAlbumPage_failures b (first :: others)) Hctx).
    + intros url -> Hne. unfold handleDownload.
      assert (T : truthy (Some url) = true)
        by (apply truthy_nonEmpty; now exists url).
      now rewrite T.
Qed.

Lemma album_download_outcomes_witness :
  let b :=
    mkBrowser None (fun _ => None) 0 (fun _ _ _ => "") in
  let sh :=
    {| workflow :=
         {| step1 := initialStepState; step2 := initialStepState;
            step3 := initialStepState;
            album := ["data:image/png;base64,AAAA"] |};
       isDownloadingAlbum := false |} in
  snd (handleDownloadAlbum b sh) = [].
Proof.
  intros b sh.
  pose proof (album_download_outcomes b sh) as H.
  destruct (handleDownloadAlbum b sh) as [[during final] effects].
  destruct H as [_ H]. simpl.
  apply (proj1 (proj2 (proj2 (H ltac:(discriminate)))) "").
  left. reflexivity.
Defined.

(** The page after an upload to card 1: step 1 is uploaded, with nothing
    processed, no error and no approval. *)
Lemma status_tells_fields_witness :
  let state :=
    cardState Card1
      (view (after [ChooseFiles Card1 ["data:image/png;base64,AAAA"]]
               initialPage)) in
  processedImage state = None /\ error state = None /\ approved state = false.
Proof.
  intros state.
  apply (proj1 (proj2 (status_tells_fields
           [ChooseFiles Card1 ["data:image/png;base64,AAAA"]] Card1))).
  reflexivity.
Defined.
